(** * PaddleNLP inference samples: sequence and classification decoding,
      predictor configuration, batch assembly.

    Shallow embedding of
    - [paddlenlp/ops/faster_transformer/sample/mbart_inference.py]
      ([postprocess_response]) and
    - [tests/test_tipc/ernie_text_matching/predict.py]
      ([Predictor.__init__], [Predictor.predict]).

    Python integers are [Z]; Python lists are [list]; a [dict] is a [gmap];
    a call that may raise returns a [result], [Raise e] for the exception. *)

From Stdlib Require Import ZArith QArith Ascii String.
From stdpp Require Import base decidable option list gmap strings.

Local Open Scope Z_scope.

(** ** Python exceptions and the error monad *)

(** A dictionary key, as reported by [KeyError]. *)
Inductive key : Type :=
| IntKey (z : Z)
| StrKey (s : string).

(** The exceptions the modelled code raises itself, and [PyError] for one
    of any other class, named by its class. *)
Inductive exn : Type :=
| ValueError (msg : string)
| KeyError (k : key)
| NameError (name : string)
| AttributeError (name : string)
| PyError (class msg : string).

Inductive result (A : Type) : Type :=
| Ok (a : A)
| Raise (e : exn).
Arguments Ok {A} a.
Arguments Raise {A} e.

#[global] Instance result_ret : MRet result := λ A a, Ok a.
#[global] Instance result_bind : MBind result := λ A B k r,
  match r with
  | Ok a => k a
  | Raise e => Raise e
  end.

(** [[f x for x in l]] where [f] may raise: the first exception escapes. *)
Fixpoint comprehension {A B : Type} (f : A → result B) (l : list A)
  : result (list B) :=
  match l with
  | [] => Ok []
  | x :: rest =>
      y ← f x;
      ys ← comprehension f rest;
      mret (y :: ys)
  end.

Definition raises {A : Type} (r : result A) : Prop := ∃ e, r = Raise e.

(** ** Python list primitives *)

(** [len(l)] as a Python integer. *)
Definition len {A : Type} (l : list A) : Z := Z.of_nat (length l).

(** [l[:stop]]: a negative [stop] counts from the end, and both cases are
    clamped to the list; slicing never raises. *)
Definition slice_to {A : Type} (l : list A) (stop : Z) : list A :=
  if stop <? 0
  then take (Z.to_nat (Z.max 0 (len l + stop))) l
  else take (Z.to_nat (Z.min stop (len l))) l.

(** ** Sequence decode: [mbart_inference.py] *)

Module MBart.

(** The [for i, idx in enumerate(seq)] loop of [postprocess_response]:
    [i] is the running index, [eos_pos] the value held before the loop;
    the [break] leaves with the first matching index. *)
Fixpoint scan_eos (i : Z) (seq : list Z) (eos_idx : Z) (eos_pos : Z) : Z :=
  match seq with
  | [] => eos_pos
  | idx :: rest =>
      if idx =? eos_idx then i else scan_eos (i + 1) rest eos_idx eos_pos
  end.

Definition eos_position (seq : list Z) (eos_idx : Z) : Z :=
  let eos_pos := len seq - 1 in
  scan_eos 0 seq eos_idx eos_pos.

(** The list comprehension's guard [idx != bos_idx and idx != eos_idx]. *)
Definition keep (bos_idx eos_idx idx : Z) : bool :=
  negb (idx =? bos_idx) && negb (idx =? eos_idx).

(** The ids handed to [tokenizer.convert_ids_to_string]. *)
Definition kept_ids (seq : list Z) (bos_idx eos_idx : Z) : list Z :=
  let eos_pos := eos_position seq eos_idx in
  List.filter (keep bos_idx eos_idx) (slice_to seq (eos_pos + 1)).

(** [tokenizer] is the external vocabulary: only its
    [convert_ids_to_string] method is used. *)
Definition postprocess_response (tokenizer : list Z → string)
    (seq : list Z) (bos_idx eos_idx : Z) : string :=
  let seq := kept_ids seq bos_idx eos_idx in
  let res := tokenizer seq in
  res.

(** The spec's wording of the truncation, stated independently of the scan:
    [prefix] is [seq] cut after its first [eos_id], or all of [seq] when
    [eos_id] does not occur. *)
Definition truncated_at_first_eos (eos_id : Z) (seq prefix : list Z) : Prop :=
  ((eos_id ∉ seq) ∧ prefix = seq)
  ∨ (∃ before after,
       seq = before ++ eos_id :: after ∧ (eos_id ∉ before)
       ∧ prefix = before ++ [eos_id]).

End MBart.

(** ** Predictor construction: [predict.py], [Predictor.__init__] *)

Module Predictor.

Inductive PrecisionType : Type := Half | Float32 | Int8.

(** The methods of [paddle.inference.Config] that [__init__] calls. The
    configuration object is external; what the constructor does to it is the
    ordered log of these calls. *)
Inductive ConfigCall : Type :=
| enable_use_gpu (memory_pool_init_size_mb device_id : Z)
| enable_tensorrt_engine (max_batch_size min_subgraph_size : Z)
                         (precision_mode : PrecisionType)
| disable_gpu
| set_mkldnn_cache_capacity (capacity : Z)
| enable_mkldnn_call
| set_cpu_math_library_num_threads (n : Z)
| enable_xpu (l3_workspace_size : Z)
| switch_use_feed_fetch_ops (flag : bool).

Record Config : Type := mkConfig {
  model_file : string;
  params_file : string;
  calls : list ConfigCall
}.

(** [config.m(...)] when the call returns: the object is mutated in place,
    the call is appended. *)
Definition call (c : ConfigCall) (config : Config) : Config :=
  mkConfig (model_file config) (params_file config) (calls config ++ [c]).

(** The parameters of [Predictor.__init__]. *)
Record InitArgs : Type := mkInitArgs {
  model_dir : string;
  device : string;
  max_seq_length : Z;
  batch_size : Z;
  use_tensorrt : bool;
  precision : string;
  cpu_threads : Z;
  enable_mkldnn : bool;
  benchmark : bool;
  save_log_path : string
}.

(** What [__init__] uses of the object [create_predictor] returns: the input
    and output names it lists, and for which names fetching a handle
    raises. A handle is kept as the name it was fetched for. *)
Record Engine : Type := mkEngine {
  input_names : list string;
  output_names : list string;
  handle_raises : string → option exn
}.

(** The arguments [auto_log.AutoLogger] is built from ([process_name] is
    [None] and [logger] the module's logger in every call). *)
Record AutoLogger : Type := mkAutoLogger {
  model_name : string;
  model_precision : string;
  logger_batch_size : Z;
  data_shape : string;
  save_path : string;
  inference_config : Config;
  pids : Z;
  gpu_ids : Z;
  time_keys : list string;
  warmup : Z
}.

(** The libraries and the process [__init__] runs against: whether a
    [Config] method raises on the configuration as it stands (an argument
    the binding refuses, a build without the feature), what
    [create_predictor] gives, whether [import auto_log] raises, the process
    id, and whether the [AutoLogger] constructor raises. *)
Record Runtime : Type := mkRuntime {
  config_call_raises : Config → ConfigCall → option exn;
  create_predictor : Config → result Engine;
  import_auto_log : option exn;
  getpid : Z;
  auto_logger_raises : AutoLogger → option exn
}.

(** The attributes [__init__] sets on [self], with the configuration the
    engine was created from. [self.autolog] exists only when the object was
    built with [benchmark=True]. *)
Record Predictor : Type := mkPredictor {
  self_max_seq_length : Z;
  self_batch_size : Z;
  self_benchmark : bool;
  self_config : Config;
  self_predictor : Engine;
  self_input_handles : list string;
  self_output_handle : string;
  self_autolog : option AutoLogger
}.

(** [os.path.join(dir, name)] for a relative [name] (POSIX). *)
Fixpoint ends_with_slash (s : string) : bool :=
  match s with
  | EmptyString => false
  | String c EmptyString => bool_decide (c = "/"%char)
  | String _ rest => ends_with_slash rest
  end.

Definition os_path_join (dir name : string) : string :=
  if bool_decide (dir = "") then name
  else if ends_with_slash dir then dir +:+ name
  else dir +:+ "/" +:+ name.

Definition precision_map : gmap string PrecisionType :=
  <["fp16" := Half]> (<["fp32" := Float32]> (<["int8" := Int8]> ∅)).

Definition precision_lookup (precision : string) : result PrecisionType :=
  match precision_map !! precision with
  | Some m => Ok m
  | None => Raise (KeyError (StrKey precision))
  end.

(** A [Config] method call: it raises what the binding raises, or takes
    effect. *)
Definition invoke (rt : Runtime) (c : ConfigCall) (config : Config)
  : result Config :=
  match config_call_raises rt config c with
  | Some e => Raise e
  | None => Ok (call c config)
  end.

(** The [if device == "gpu": ... elif device == "cpu": ... elif device ==
    "xpu": ...] chain, acting on [config]. *)
Definition configure_device (rt : Runtime) (a : InitArgs) (config : Config)
  : result Config :=
  if bool_decide (device a = "gpu") then
    config ← invoke rt (enable_use_gpu 100 0) config;
    precision_mode ← precision_lookup (precision a);
    if use_tensorrt a
    then invoke rt (enable_tensorrt_engine (batch_size a) 30 precision_mode)
                config
    else mret config
  else if bool_decide (device a = "cpu") then
    config ← invoke rt disable_gpu config;
    config ← (if enable_mkldnn a
              then config ← invoke rt (set_mkldnn_cache_capacity 10) config;
                   invoke rt enable_mkldnn_call config
              else mret config);
    invoke rt (set_cpu_math_library_num_threads (cpu_threads a)) config
  else if bool_decide (device a = "xpu") then
    invoke rt (enable_xpu 100) config
  else mret config.

(** [predictor.get_input_handle(name)], [predictor.get_output_handle(name)]. *)
Definition get_handle (predictor : Engine) (name : string) : result string :=
  match handle_raises predictor name with
  | Some e => Raise e
  | None => Ok name
  end.

(** [self.predictor.get_output_names()[0]]. *)
Definition first_output_name (predictor : Engine) : result string :=
  match output_names predictor with
  | name :: _ => Ok name
  | [] => Raise (PyError "IndexError" "list index out of range")
  end.

(** The [if benchmark:] block: the import, then the logger built from the
    precision string, the batch size, the log path, the configuration and
    the process id. *)
Definition make_autolog (rt : Runtime) (a : InitArgs) (config : Config)
  : result (option AutoLogger) :=
  if benchmark a then
    match import_auto_log rt with
    | Some e => Raise e
    | None =>
        let pid := getpid rt in
        let autolog :=
          mkAutoLogger "ernie-tiny" (precision a) (batch_size a) "dynamic"
            (save_log_path a) config pid 0
            ["preprocess_time"; "inference_time"; "postprocess_time"] 0 in
        match auto_logger_raises rt autolog with
        | Some e => Raise e
        | None => Ok (Some autolog)
        end
    end
  else Ok None.

(** [__init__] from [switch_use_feed_fetch_ops] on: the engine, its handles
    and the optional logger. *)
Definition build (rt : Runtime) (a : InitArgs) (config : Config)
  : result Predictor :=
  config ← invoke rt (switch_use_feed_fetch_ops false) config;
  predictor ← create_predictor rt config;
  input_handles ← comprehension (get_handle predictor)
                    (input_names predictor);
  output_name ← first_output_name predictor;
  output_handle ← get_handle predictor output_name;
  autolog ← make_autolog rt a config;
  mret (mkPredictor (max_seq_length a) (batch_size a) (benchmark a)
                    config predictor input_handles output_handle autolog).

(** [__init__]; [path_exists] is [os.path.exists] on the file system the
    constructor runs against, [rt] the libraries it calls. *)
Definition init (path_exists : string → bool) (rt : Runtime) (a : InitArgs)
  : result Predictor :=
  let model_file := os_path_join (model_dir a) "inference.pdmodel" in
  let params_file := os_path_join (model_dir a) "inference.pdiparams" in
  if negb (path_exists model_file) then
    Raise (ValueError ("not find model file path " +:+ model_file))
  else if negb (path_exists params_file) then
    Raise (ValueError ("not find params file path " +:+ params_file))
  else
    let config := mkConfig model_file params_file [] in
    config ← configure_device rt a config;
    build rt a config.

(** A runtime in which no library call raises: every [Config] method takes
    effect, the engine is created with at least one output and hands out
    its handles, and [auto_log] imports and builds its logger. *)
Definition quiet (rt : Runtime) : Prop :=
  (∀ config c, config_call_raises rt config c = None)
  ∧ (∀ config, ∃ predictor,
       create_predictor rt config = Ok predictor
       ∧ output_names predictor ≠ []
       ∧ ∀ name, handle_raises predictor name = None)
  ∧ import_auto_log rt = None
  ∧ (∀ autolog, auto_logger_raises rt autolog = None).

(** Such a runtime: a two-input, one-output engine, process 4242. *)
Definition plain_runtime : Runtime :=
  mkRuntime (λ _ _, None)
            (λ _, Ok (mkEngine ["input_ids"; "token_type_ids"] ["logits"]
                               (λ _, None)))
            None 4242 (λ _, None).

(** The execution settings a constructed predictor runs under. *)
Definition settings (p : Predictor) : list ConfigCall := calls (self_config p).

(** The same call with another [use_tensorrt], respectively [precision]. *)
Definition with_use_tensorrt (flag : bool) (a : InitArgs) : InitArgs :=
  mkInitArgs (model_dir a) (device a) (max_seq_length a) (batch_size a)
             flag (precision a) (cpu_threads a) (enable_mkldnn a)
             (benchmark a) (save_log_path a).

Definition with_precision (name : string) (a : InitArgs) : InitArgs :=
  mkInitArgs (model_dir a) (device a) (max_seq_length a) (batch_size a)
             (use_tensorrt a) name (cpu_threads a) (enable_mkldnn a)
             (benchmark a) (save_log_path a).

(** Both model files are present. *)
Definition model_present (path_exists : string → bool) (a : InitArgs) : Prop :=
  path_exists (os_path_join (model_dir a) "inference.pdmodel") = true
  ∧ path_exists (os_path_join (model_dir a) "inference.pdiparams") = true.

(** The options the resolved settings are a function of. [enable_mkldnn]
    is what makes [__init__] set a cache capacity (always 10). *)
Definition same_options (a1 a2 : InitArgs) : Prop :=
  device a1 = device a2
  ∧ precision a1 = precision a2
  ∧ use_tensorrt a1 = use_tensorrt a2
  ∧ batch_size a1 = batch_size a2
  ∧ cpu_threads a1 = cpu_threads a2
  ∧ enable_mkldnn a1 = enable_mkldnn a2.

End Predictor.

(** ** Classification decode: [predict.py], [Predictor.predict] *)

Module Classify.

Section Argmax.
Context {score : Type}.
(** [le x y] is the comparison [x <= y] of the scores' element type. *)
Variable le : score → score → bool.

(** A value that does not compare to itself (a floating-point NaN). *)
Definition isnan (x : score) : bool := negb (le x x).

(** [numpy]'s scan over one row: [mp] is the running maximum, [max_ind] its
    index, [i] the index of the head of [ip]. Only an element that is not
    [<= mp] replaces the maximum, so among equal maxima the first stays;
    a NaN ends the scan. *)
Fixpoint argmax_scan (i : nat) (ip : list score) (mp : score)
    (max_ind : nat) : nat :=
  match ip with
  | [] => max_ind
  | x :: rest =>
      if le x mp then argmax_scan (S i) rest mp max_ind
      else if isnan x then i
      else argmax_scan (S i) rest x i
  end.

Definition argmax_row (row : list score) : option nat :=
  match row with
  | [] => None
  | mp :: rest => Some (if isnan mp then 0%nat else argmax_scan 1 rest mp 0)
  end.

(** A two-dimensional array of shape [(length rows, ncols)]. *)
Record ndarray2 : Type := mkArray {
  ncols : nat;
  rows : list (list score)
}.

Definition rectangular (a : ndarray2) : Prop :=
  Forall (λ r, length r = ncols a) (rows a).

Definition empty_sequence : exn :=
  ValueError "attempt to get argmax of an empty sequence".

(** [np.argmax(probs, axis=1)]: reducing over an axis of length zero
    raises. *)
Definition np_argmax_axis1 (probs : ndarray2) : result (list nat) :=
  if (ncols probs =? 0)%nat then Raise empty_sequence
  else comprehension
         (λ r, match argmax_row r with
               | Some i => Ok i
               | None => Raise empty_sequence
               end)
         (rows probs).

(** [label_map[i]]. *)
Definition getitem (label_map : gmap Z string) (i : Z) : result string :=
  match label_map !! i with
  | Some label => Ok label
  | None => Raise (KeyError (IntKey i))
  end.

(** The decode step of [predict]:
    [idx = np.argmax(probs, axis=1); idx = idx.tolist();
     labels = [label_map[i] for i in idx]]. *)
Definition decode (probs : ndarray2) (label_map : gmap Z string)
  : result (list string) :=
  idx ← np_argmax_axis1 probs;
  let idx := Z.of_nat <$> idx in
  comprehension (getitem label_map) idx.

(** The end of [predict]: after the decode step the method reads the
    module-level name [args], bound only when the file runs as a script
    ([args_benchmark] is then [args.benchmark]), stops the timer if it is
    set, and returns the labels. *)
Definition predict_tail (args_benchmark : option bool)
    (self : Predictor.Predictor) (probs : ndarray2)
    (label_map : gmap Z string) : result (list string) :=
  labels ← decode probs label_map;
  match args_benchmark with
  | None => Raise (NameError "args")
  | Some true =>
      match Predictor.self_autolog self with
      | Some _ => mret labels
      | None => Raise (AttributeError "autolog")
      end
  | Some false => mret labels
  end.

(** [i] is the stable argmax of [row]: a maximum, and strictly above
    everything before it. *)
Definition stable_argmax (row : list score) (i : nat) : Prop :=
  ∃ m, row !! i = Some m
     ∧ (∀ j x, row !! j = Some x → le x m = true)
     ∧ (∀ j x, (j < i)%nat → row !! j = Some x → le m x = false).
End Argmax.

End Classify.

(** ** Batch assembly *)

Module Assembler.

Inductive PadSide : Type := Leading | Trailing.

Inductive AssembleError : Type := InvalidInput.

Record Batch : Type := mkBatch {
  batch_rows : list (list Z);
  max_len : nat;
  pad_value : Z
}.

Definition longest (sequences : list (list Z)) : nat :=
  foldr (λ s m, Nat.max (length s) m) 0%nat sequences.

Definition pad_row (pad_id : Z) (pad_side : PadSide) (width : nat)
    (s : list Z) : list Z :=
  let padding := replicate (width - length s) pad_id in
  match pad_side with
  | Trailing => s ++ padding
  | Leading => padding ++ s
  end.

(** Modelled from the spec: [paddlenlp.data.Pad], which [batchify_fn] uses to
    pad each field, is not among the sources. Section 4.1: the width is the
    maximum length across the input sequences, an empty input fails with
    [InvalidInput], and each row is the original sequence plus
    [max_len - len] copies of [pad_id] on the chosen side. *)
Definition assemble (sequences : list (list Z)) (pad_id : Z)
    (pad_side : PadSide) : AssembleError + Batch :=
  match sequences with
  | [] => inl InvalidInput
  | _ =>
      let width := longest sequences in
      inr (mkBatch (pad_row pad_id pad_side width <$> sequences) width pad_id)
  end.

End Assembler.

(** ** The script body of [predict.py] *)

(** [range(start, stop, step)] as the list of its elements; a zero step
    raises. The number of elements is the one [range] itself computes. *)
Definition py_range (start stop step : Z) : result (list Z) :=
  if step =? 0 then Raise (ValueError "range() arg 3 must not be zero")
  else
    let n :=
      if 0 <? step
      then (if start <? stop then (stop - start - 1) / step + 1 else 0)
      else (if stop <? start then (start - stop - 1) / (- step) + 1 else 0) in
    Ok ((λ k, start + Z.of_nat k * step) <$> seq 0 (Z.to_nat n)).

(** A slice bound brought into [0, len l]: negative bounds count from the
    end. *)
Definition clamp_index {A : Type} (l : list A) (i : Z) : nat :=
  Z.to_nat (if i <? 0 then Z.max 0 (len l + i) else Z.min i (len l)).

(** [l[start:stop]]. *)
Definition slice {A : Type} (l : list A) (start stop : Z) : list A :=
  drop (clamp_index l start) (take (clamp_index l stop) l).

Module Script.

(** [label_map = {0: 'dissimilar', 1: 'similar'}]. *)
Definition label_map : gmap Z string :=
  <[0 := "dissimilar"]> (<[1 := "similar"]> ∅).

(** What the script does not catch: an exception of the modelled calls, or
    the [IndexError] of [results[idx]]. *)
Inductive script_exn : Type :=
| Uncaught (e : exn)
| IndexError.

Section Main.
Context {text : Type}.
(** [predictor.predict(batch_data, tokenizer, label_map)] for the predictor,
    tokenizer and label map the script built. *)
Variable predict : list text → result (list string).

(** What a run printed, one [(text, label)] per line, and the exception
    that ended it, if any. *)
Record run : Type := mkRun {
  printed : list (text * string);
  raised : option script_exn
}.

(** [if args.max_steps > 0: data = data[:args.max_steps]]. *)
Definition limit_steps (data : list text) (max_steps : Z) : list text :=
  if 0 <? max_steps then slice_to data max_steps else data.

(** [[data[idx:idx + batch_size] for idx in range(0, len(data),
    batch_size)]]. *)
Definition make_batches (data : list text) (batch_size : Z)
  : result (list (list text)) :=
  idxs ← py_range 0 (len data) batch_size;
  mret ((λ idx, slice data idx (idx + batch_size)) <$> (idxs : list Z)).

(** [for batch_data in batches: results.extend(predict(batch_data))]. *)
Fixpoint extend_results (batches : list (list text)) (results : list string)
  : result (list string) :=
  match batches with
  | [] => Ok results
  | batch_data :: rest =>
      labels ← predict batch_data;
      extend_results rest (results ++ labels)
  end.

(** [for idx, text in enumerate(data): print(text, results[idx])], from
    index [idx] on, after [done] lines were printed. *)
Fixpoint report (idx : nat) (data : list text) (results : list string)
    (done : list (text * string)) : run :=
  match data with
  | [] => mkRun done None
  | t :: rest =>
      match results !! idx with
      | None => mkRun done (Some IndexError)
      | Some label => report (S idx) rest results (done ++ [(t, label)])
      end
  end.

(** Lines 208 to 222, from the loaded [data] on. *)
Definition main (data : list text) (batch_size max_steps : Z) : run :=
  let data := limit_steps data max_steps in
  match make_batches data batch_size with
  | Raise e => mkRun [] (Some (Uncaught e))
  | Ok batches =>
      match extend_results batches [] with
      | Raise e => mkRun [] (Some (Uncaught e))
      | Ok results => report 0 data results []
      end
  end.
End Main.

End Script.

(** * Properties *)

(** ** The error monad *)

Lemma comprehension_Ok {A B : Type} (f : A → result B) (l : list A)
    (l' : list B) :
  comprehension f l = Ok l' ↔ Forall2 (λ x y, f x = Ok y) l l'.
Proof.
  revert l'. induction l as [|x l IH]; intros l'; simpl.
  - split.
    + intros [= <-]. constructor.
    + intros H. inversion H. reflexivity.
  - split.
    + destruct (f x) as [y|e] eqn:Hx; simpl; [|discriminate].
      destruct (comprehension f l) as [ys|e] eqn:Hl; simpl; [|discriminate].
      intros [= <-]. constructor; [exact Hx|]. apply IH. reflexivity.
    + intros H. inversion H as [|? y ? ys Hx Hrest]; subst.
      rewrite Hx. simpl. apply IH in Hrest. rewrite Hrest. reflexivity.
Qed.

Lemma comprehension_cons {A B : Type} (f : A → result B) (x : A)
    (l : list A) :
  comprehension f (x :: l)
  = match f x with
    | Ok y => match comprehension f l with
              | Ok ys => Ok (y :: ys)
              | Raise e => Raise e
              end
    | Raise e => Raise e
    end.
Proof. reflexivity. Qed.

(** ** Sequence decode *)

Section SequenceDecode.
Import MBart.

Lemma slice_to_len {A : Type} (l : list A) : slice_to l (len l) = l.
Proof.
  unfold slice_to, len.
  destruct (Z.ltb_spec (Z.of_nat (length l)) 0) as [?|_]; [lia|].
  rewrite Z.min_id, Nat2Z.id. apply firstn_all.
Qed.

Lemma slice_to_through {A : Type} (before after : list A) (x : A) :
  slice_to (before ++ x :: after) (len before + 1) = before ++ [x].
Proof.
  unfold slice_to, len.
  destruct (Z.ltb_spec (Z.of_nat (length before) + 1) 0) as [?|_]; [lia|].
  rewrite length_app. simpl length.
  replace (Z.to_nat _) with (length (before ++ [x])).
  - replace (before ++ x :: after) with ((before ++ [x]) ++ after)
      by (rewrite <- app_assoc; reflexivity).
    apply take_app_length.
  - rewrite length_app. simpl. lia.
Qed.

Lemma scan_eos_absent (seq : list Z) (eos_idx i eos_pos : Z) :
  eos_idx ∉ seq → scan_eos i seq eos_idx eos_pos = eos_pos.
Proof.
  revert i. induction seq as [|idx rest IH]; intros i Hnot; simpl.
  - reflexivity.
  - apply not_elem_of_cons in Hnot as [Hne Hrest].
    destruct (Z.eqb_spec idx eos_idx) as [->|_]; [contradiction|].
    apply IH, Hrest.
Qed.

Lemma scan_eos_first (before after : list Z) (eos_idx i eos_pos : Z) :
  eos_idx ∉ before →
  scan_eos i (before ++ eos_idx :: after) eos_idx eos_pos = i + len before.
Proof.
  revert i. induction before as [|idx rest IH]; intros i Hnot; simpl.
  - rewrite Z.eqb_refl. unfold len. simpl. lia.
  - apply not_elem_of_cons in Hnot as [Hne Hrest].
    destruct (Z.eqb_spec idx eos_idx) as [->|_]; [contradiction|].
    rewrite IH by exact Hrest. unfold len. simpl length. lia.
Qed.

(** Every list either lacks [x] or splits at its first [x]. *)
Lemma first_occurrence (x : Z) (l : list Z) :
  x ∉ l ∨ ∃ before after, l = before ++ x :: after ∧ x ∉ before.
Proof.
  induction l as [|y l IH].
  - left. apply not_elem_of_nil.
  - destruct (decide (y = x)) as [->|Hne].
    + right. exists [], l. split; [reflexivity|apply not_elem_of_nil].
    + destruct IH as [Hnot|(before & after & -> & Hnot)].
      * left. apply not_elem_of_cons. split; [congruence|exact Hnot].
      * right. exists (y :: before), after. split; [reflexivity|].
        apply not_elem_of_cons. split; [congruence|exact Hnot].
Qed.

Lemma slice_is_truncation (seq : list Z) (eos_idx : Z) :
  truncated_at_first_eos eos_idx seq
    (slice_to seq (eos_position seq eos_idx + 1)).
Proof.
  unfold eos_position.
  destruct (first_occurrence eos_idx seq)
    as [Hnot|(before & after & -> & Hnot)].
  - left. split; [exact Hnot|].
    rewrite scan_eos_absent by exact Hnot.
    replace (len seq - 1 + 1) with (len seq) by lia. apply slice_to_len.
  - right. exists before, after. split; [reflexivity|]. split; [exact Hnot|].
    rewrite scan_eos_first by exact Hnot. simpl.
    apply slice_to_through.
Qed.

Lemma keep_spec (bos_idx eos_idx idx : Z) :
  keep bos_idx eos_idx idx = true ↔ idx ≠ bos_idx ∧ idx ≠ eos_idx.
Proof.
  unfold keep. rewrite andb_true_iff, !negb_true_iff, !Z.eqb_neq. tauto.
Qed.

Lemma filter_keep (bos_idx eos_idx : Z) (l : list Z) :
  List.filter (keep bos_idx eos_idx) l
  = filter (λ idx, idx ≠ bos_idx ∧ idx ≠ eos_idx) l.
Proof.
  induction l as [|x l IH]; [reflexivity|]. simpl.
  rewrite filter_cons, <- IH.
  destruct (keep bos_idx eos_idx x) eqn:Hk.
  - apply keep_spec in Hk. rewrite decide_True by exact Hk. reflexivity.
  - rewrite decide_False; [reflexivity|].
    intros Hk'. apply keep_spec in Hk'. congruence.
Qed.

Lemma kept_ids_clean (seq : list Z) (bos_idx eos_idx : Z) :
  Forall (λ idx, idx ≠ bos_idx ∧ idx ≠ eos_idx) (kept_ids seq bos_idx eos_idx).
Proof.
  unfold kept_ids. simpl. rewrite filter_keep.
  apply Forall_forall. intros x Hx. apply list_elem_of_filter in Hx. tauto.
Qed.

Lemma kept_ids_of_clean (l : list Z) (bos_idx eos_idx : Z) :
  Forall (λ idx, idx ≠ bos_idx ∧ idx ≠ eos_idx) l →
  kept_ids l bos_idx eos_idx = l.
Proof.
  intros Hclean. unfold kept_ids, eos_position. simpl.
  assert (eos_idx ∉ l) as Hnot.
  { intros Hin. rewrite Forall_forall in Hclean.
    destruct (Hclean _ Hin) as [_ Hne]. congruence. }
  rewrite scan_eos_absent by exact Hnot.
  replace (len l - 1 + 1) with (len l) by lia.
  rewrite slice_to_len, filter_keep.
  clear Hnot. induction Hclean as [|x l Hx _ IH]; [reflexivity|].
  rewrite filter_cons, decide_True by exact Hx. f_equal. exact IH.
Qed.
End SequenceDecode.

(** C1. Sequence decode cuts the input after its first [eos_id] (keeping all
    of it when [eos_id] does not occur), drops every [bos_id] and [eos_id]
    from that prefix, and converts exactly the remaining ids; on
    [[0, 5, 9, 2, 1, 1]] with [bos_id = 0], [eos_id = 2] the ids converted
    are [[5, 9]]. *)
Theorem sequence_decode_truncates_and_strips :
  (∀ (tokenizer : list Z → string) (seq : list Z) (bos_id eos_id : Z),
     ∃ prefix,
       MBart.truncated_at_first_eos eos_id seq prefix
       ∧ MBart.postprocess_response tokenizer seq bos_id eos_id
         = tokenizer (filter (λ id, id ≠ bos_id ∧ id ≠ eos_id) prefix))
  ∧ (∀ tokenizer : list Z → string,
       MBart.postprocess_response tokenizer [0; 5; 9; 2; 1; 1] 0 2
       = tokenizer [5; 9]).
Proof.
  split.
  - intros tokenizer seq bos_id eos_id.
    exists (slice_to seq (MBart.eos_position seq eos_id + 1)).
    split; [apply slice_is_truncation|].
    unfold MBart.postprocess_response, MBart.kept_ids. simpl.
    rewrite filter_keep. reflexivity.
  - intros tokenizer. reflexivity.
Qed.

(** C6. Sequence decode is idempotent on ids: the kept ids of an already
    decoded id list are that list, so decoding it again gives the same
    string. *)
Theorem sequence_decode_idempotent :
  ∀ (tokenizer : list Z → string) (seq : list Z) (bos_id eos_id : Z),
    MBart.kept_ids (MBart.kept_ids seq bos_id eos_id) bos_id eos_id
    = MBart.kept_ids seq bos_id eos_id
    ∧ MBart.postprocess_response tokenizer
        (MBart.kept_ids seq bos_id eos_id) bos_id eos_id
      = MBart.postprocess_response tokenizer seq bos_id eos_id.
Proof.
  intros tokenizer seq bos_id eos_id.
  assert (MBart.kept_ids (MBart.kept_ids seq bos_id eos_id) bos_id eos_id
          = MBart.kept_ids seq bos_id eos_id) as Hfix
    by apply kept_ids_of_clean, kept_ids_clean.
  split; [exact Hfix|].
  unfold MBart.postprocess_response. simpl. rewrite Hfix. reflexivity.
Qed.

(** C9. On the empty id list [eos_pos] is [-1], the slice [seq[:0]] is empty,
    and the result is the conversion of the empty id list. *)
Theorem sequence_decode_empty :
  ∀ (tokenizer : list Z → string) (bos_id eos_id : Z),
    MBart.eos_position [] eos_id = -1
    ∧ slice_to ([] : list Z) (MBart.eos_position [] eos_id + 1) = []
    ∧ MBart.kept_ids [] bos_id eos_id = []
    ∧ MBart.postprocess_response tokenizer [] bos_id eos_id = tokenizer [].
Proof. intros tokenizer bos_id eos_id. repeat split. Qed.

(** ** Predictor construction *)

Section Construction.
Import Predictor.

Lemma precision_lookup_known (name : string) (m : PrecisionType) :
  precision_map !! name = Some m → precision_lookup name = Ok m.
Proof. intros H. unfold precision_lookup. rewrite H. reflexivity. Qed.

Lemma precision_map_None (name : string) :
  precision_map !! name = None
  ↔ name ≠ "fp16" ∧ name ≠ "fp32" ∧ name ≠ "int8".
Proof.
  unfold precision_map.
  rewrite !lookup_insert_None, lookup_empty. split.
  - intros (((_ & Hint) & H32) & H16). repeat split; congruence.
  - intros (H16 & H32 & Hint). repeat split; congruence.
Qed.

Lemma invoke_Ok (rt : Runtime) (c : ConfigCall) (config config' : Config) :
  invoke rt c config = Ok config' → config' = call c config.
Proof.
  unfold invoke. destruct (config_call_raises rt config c); [discriminate|].
  intros [= <-]. reflexivity.
Qed.

Lemma invoke_quiet (rt : Runtime) (c : ConfigCall) (config : Config) :
  quiet rt → invoke rt c config = Ok (call c config).
Proof. intros (Hcalls & _). unfold invoke. rewrite Hcalls. reflexivity. Qed.

Ltac invert_invoke :=
  repeat match goal with
         | |- context [invoke ?rt ?c ?config] =>
             let config' := fresh "config" in
             let H := fresh "Hcall" in
             destruct (invoke rt c config) as [config'|?] eqn:H;
             [apply invoke_Ok in H; subst config'; simpl|simpl; try discriminate]
         end.

(** What a device chain that returned has appended, device by device. *)
Lemma configure_device_Ok (rt : Runtime) (a : InitArgs)
    (config config' : Config) :
  configure_device rt a config = Ok config' →
  (device a = "gpu"
   ∧ ∃ m, precision_map !! precision a = Some m
        ∧ calls config'
          = calls config
            ++ enable_use_gpu 100 0
               :: (if use_tensorrt a
                   then [enable_tensorrt_engine (batch_size a) 30 m]
                   else []))
  ∨ (device a = "cpu"
     ∧ calls config'
       = calls config
         ++ disable_gpu
            :: (if enable_mkldnn a
                then [set_mkldnn_cache_capacity 10; enable_mkldnn_call]
                else [])
            ++ [set_cpu_math_library_num_threads (cpu_threads a)])
  ∨ (device a = "xpu" ∧ calls config' = calls config ++ [enable_xpu 100])
  ∨ (device a ≠ "gpu" ∧ device a ≠ "cpu" ∧ device a ≠ "xpu"
     ∧ calls config' = calls config).
Proof.
  unfold configure_device, precision_lookup. repeat case_bool_decide.
  - invert_invoke.
    destruct (precision_map !! precision a) as [m|] eqn:Hm; simpl;
      [|discriminate].
    destruct (use_tensorrt a); invert_invoke; intros [= <-];
      (left; split; [assumption|]; exists m; split; [reflexivity|]);
      simpl; rewrite <- ?app_assoc; reflexivity.
  - destruct (enable_mkldnn a); invert_invoke; intros [= <-];
      (right; left; split; [assumption|]);
      simpl; rewrite <- ?app_assoc; reflexivity.
  - invert_invoke. intros [= <-].
    right. right. left. split; [assumption|reflexivity].
  - intros [= <-]. right. right. right. repeat split; assumption.
Qed.

(** What a predictor that was built holds. *)
Lemma build_Ok (rt : Runtime) (a : InitArgs) (config : Config)
    (p : Predictor) :
  build rt a config = Ok p →
  self_config p = call (switch_use_feed_fetch_ops false) config
  ∧ self_autolog p
    = (if benchmark a
       then Some (mkAutoLogger "ernie-tiny" (precision a) (batch_size a)
                    "dynamic" (save_log_path a) (self_config p) (getpid rt) 0
                    ["preprocess_time"; "inference_time";
                     "postprocess_time"] 0)
       else None).
Proof.
  unfold build. invert_invoke.
  destruct (create_predictor rt _) as [predictor|?]; simpl; [|discriminate].
  destruct (comprehension _ _) as [handles|?]; simpl; [|discriminate].
  destruct (first_output_name predictor) as [name|?]; simpl; [|discriminate].
  destruct (get_handle predictor name) as [handle|?]; simpl; [|discriminate].
  unfold make_autolog.
  destruct (benchmark a).
  - destruct (import_auto_log rt); simpl; [discriminate|].
    destruct (auto_logger_raises rt _); simpl; [discriminate|].
    intros [= <-]. split; reflexivity.
  - simpl. intros [= <-]. split; reflexivity.
Qed.

Lemma init_Ok_inv (path_exists : string → bool) (rt : Runtime)
    (a : InitArgs) (p : Predictor) :
  init path_exists rt a = Ok p →
  model_present path_exists a
  ∧ ∃ c, configure_device rt a
           (mkConfig (os_path_join (model_dir a) "inference.pdmodel")
                     (os_path_join (model_dir a) "inference.pdiparams") [])
         = Ok c
       ∧ build rt a c = Ok p.
Proof.
  unfold init, model_present.
  destruct (path_exists _); simpl; [|discriminate].
  destruct (path_exists _); simpl; [|discriminate].
  destruct (configure_device rt a _) as [c|e]; simpl; [|discriminate].
  intros Hbuild. split; [split; reflexivity|]. exists c. split; [reflexivity|].
  exact Hbuild.
Qed.

Lemma init_present (path_exists : string → bool) (rt : Runtime)
    (a : InitArgs) :
  model_present path_exists a →
  init path_exists rt a
  = (config ← configure_device rt a
       (mkConfig (os_path_join (model_dir a) "inference.pdmodel")
                 (os_path_join (model_dir a) "inference.pdiparams") []);
     build rt a config).
Proof. intros [Hm Hp]. unfold init. rewrite Hm, Hp. reflexivity. Qed.

(** The settings of a constructed predictor, device by device. *)
Lemma init_settings_cases (path_exists : string → bool) (rt : Runtime)
    (a : InitArgs) (p : Predictor) :
  init path_exists rt a = Ok p →
  (device a = "gpu"
   ∧ ∃ m, precision_map !! precision a = Some m
        ∧ settings p
          = enable_use_gpu 100 0
            :: (if use_tensorrt a
                then [enable_tensorrt_engine (batch_size a) 30 m]
                else [])
            ++ [switch_use_feed_fetch_ops false])
  ∨ (device a = "cpu"
     ∧ settings p
       = disable_gpu
         :: (if enable_mkldnn a
             then [set_mkldnn_cache_capacity 10; enable_mkldnn_call]
             else [])
         ++ [set_cpu_math_library_num_threads (cpu_threads a);
             switch_use_feed_fetch_ops false])
  ∨ (device a = "xpu"
     ∧ settings p = [enable_xpu 100; switch_use_feed_fetch_ops false])
  ∨ (device a ≠ "gpu" ∧ device a ≠ "cpu" ∧ device a ≠ "xpu"
     ∧ settings p = [switch_use_feed_fetch_ops false]).
Proof.
  intros Hinit. apply init_Ok_inv in Hinit as (_ & c & Hc & Hbuild).
  apply build_Ok in Hbuild as [Hconfig _].
  unfold settings. rewrite Hconfig. simpl.
  destruct (configure_device_Ok _ _ _ _ Hc)
    as [(Hdev & m & Hm & ->)|[(Hdev & ->)|[(Hdev & ->)|(? & ? & ? & ->)]]];
    simpl.
  - left. split; [exact Hdev|]. exists m. split; [exact Hm|].
    destruct (use_tensorrt a); reflexivity.
  - right. left. split; [exact Hdev|].
    destruct (enable_mkldnn a); reflexivity.
  - right. right. left. split; [exact Hdev|reflexivity].
  - right. right. right. repeat split; assumption.
Qed.

(** In a quiet runtime the rest of the constructor goes through. *)
Lemma build_quiet (rt : Runtime) (a : InitArgs) (config : Config) :
  quiet rt → ∃ p, build rt a config = Ok p.
Proof.
  intros Hquiet. unfold build.
  rewrite invoke_quiet by exact Hquiet. simpl.
  destruct Hquiet as (_ & Hcreate & Himport & Hlogger).
  destruct (Hcreate (call (switch_use_feed_fetch_ops false) config))
    as (predictor & -> & Hout & Hhandles). simpl.
  assert (∀ names, comprehension (get_handle predictor) names = Ok names)
    as Hnames.
  { induction names as [|name names IH]; [reflexivity|].
    rewrite comprehension_cons, IH. unfold get_handle.
    rewrite Hhandles. reflexivity. }
  rewrite Hnames. simpl. unfold first_output_name.
  destruct (output_names predictor) as [|name names]; [congruence|]. simpl.
  unfold get_handle. rewrite Hhandles. simpl.
  unfold make_autolog. rewrite Himport.
  destruct (benchmark a); [rewrite Hlogger|]; simpl; eexists; reflexivity.
Qed.

(** In a quiet runtime with the model files present, the one thing that
    stops the constructor is a precision outside the table on ["gpu"]. *)
Lemma init_quiet_Raise (path_exists : string → bool) (rt : Runtime)
    (a : InitArgs) (e : exn) :
  quiet rt → model_present path_exists a →
  (init path_exists rt a = Raise e
   ↔ device a = "gpu" ∧ precision_map !! precision a = None
     ∧ e = KeyError (StrKey (precision a))).
Proof.
  intros Hquiet Hfiles. rewrite init_present by exact Hfiles.
  unfold configure_device. rewrite !invoke_quiet by exact Hquiet.
  unfold precision_lookup.
  repeat case_bool_decide; simpl.
  - destruct (precision_map !! precision a) as [m|] eqn:Hm; simpl.
    + assert (∃ c, (if use_tensorrt a
                    then invoke rt
                           (enable_tensorrt_engine (batch_size a) 30 m)
                           (call (enable_use_gpu 100 0)
                              (mkConfig
                                 (os_path_join (model_dir a)
                                    "inference.pdmodel")
                                 (os_path_join (model_dir a)
                                    "inference.pdiparams") []))
                    else mret (call (enable_use_gpu 100 0)
                                 (mkConfig
                                    (os_path_join (model_dir a)
                                       "inference.pdmodel")
                                    (os_path_join (model_dir a)
                                       "inference.pdiparams") []))) = Ok c)
        as [c ->].
      { destruct (use_tensorrt a);
          [rewrite invoke_quiet by exact Hquiet|]; eexists; reflexivity. }
      simpl. destruct (build_quiet rt a c Hquiet) as [p ->].
      split; [discriminate|]. intros (_ & ? & _). discriminate.
    + split.
      * intros [= <-]. repeat split; assumption.
      * intros (_ & _ & ->). reflexivity.
  - destruct (enable_mkldnn a); rewrite ?invoke_quiet by exact Hquiet; simpl;
      rewrite ?invoke_quiet by exact Hquiet; simpl;
      rewrite ?invoke_quiet by exact Hquiet; simpl;
      match goal with
      | |- context [build rt a ?c] =>
          destruct (build_quiet rt a c Hquiet) as [p ->]
      end;
      (split; [discriminate|]; intros (? & _); congruence).
  - match goal with
    | |- context [build rt a ?c] =>
        destruct (build_quiet rt a c Hquiet) as [p ->]
    end.
    split; [discriminate|]. intros (? & _). congruence.
  - match goal with
    | |- context [build rt a ?c] =>
        destruct (build_quiet rt a c Hquiet) as [p ->]
    end.
    split; [discriminate|]. intros (? & _). congruence.
Qed.

Lemma plain_runtime_quiet : quiet plain_runtime.
Proof.
  split; [reflexivity|]. split; [|split; reflexivity].
  intros config. eexists. split; [reflexivity|]. split; [discriminate|].
  reflexivity.
Qed.
End Construction.

(** C3, as the code has it. With [device = "cpu"] the [use_tensorrt] flag
    is not read: whatever the file system and the libraries do, construction
    with the flag set has the outcome of construction without it (the same
    predictor or the same exception), and a predictor that is built has the
    plain CPU settings, with no TensorRT engine among them. *)
Theorem cpu_construction_ignores_tensorrt :
  ∀ (path_exists : string → bool) (rt : Predictor.Runtime)
    (a : Predictor.InitArgs),
    Predictor.device a = "cpu" →
    Predictor.use_tensorrt a = true →
    Predictor.init path_exists rt a
    = Predictor.init path_exists rt (Predictor.with_use_tensorrt false a)
    ∧ ∀ p, Predictor.init path_exists rt a = Ok p →
           Predictor.settings p
           = Predictor.disable_gpu
             :: (if Predictor.enable_mkldnn a
                 then [Predictor.set_mkldnn_cache_capacity 10;
                       Predictor.enable_mkldnn_call]
                 else [])
             ++ [Predictor.set_cpu_math_library_num_threads
                   (Predictor.cpu_threads a);
                 Predictor.switch_use_feed_fetch_ops false].
Proof.
  intros path_exists rt a Hdev _. split.
  - unfold Predictor.init, Predictor.configure_device, Predictor.build,
      Predictor.make_autolog. simpl. rewrite Hdev. reflexivity.
  - intros p Hinit.
    destruct (init_settings_cases _ _ _ _ Hinit)
      as [(Hgpu & _)|[(_ & Hs)|[(Hxpu & _)|(_ & Hcpu & _)]]];
      [congruence|exact Hs|congruence|congruence].
Qed.

Lemma cpu_construction_ignores_tensorrt_witness :
  ∃ p, Predictor.init (λ _, true) Predictor.plain_runtime
         (Predictor.mkInitArgs "./model" "cpu" 128 32 true "fp32" 10 true
            false "./log_output") = Ok p
     ∧ Predictor.init (λ _, true) Predictor.plain_runtime
         (Predictor.mkInitArgs "./model" "cpu" 128 32 false "fp32" 10 true
            false "./log_output") = Ok p
     ∧ Predictor.settings p
       = [Predictor.disable_gpu; Predictor.set_mkldnn_cache_capacity 10;
          Predictor.enable_mkldnn_call;
          Predictor.set_cpu_math_library_num_threads 10;
          Predictor.switch_use_feed_fetch_ops false].
Proof.
  destruct (cpu_construction_ignores_tensorrt (λ _, true)
              Predictor.plain_runtime
              (Predictor.mkInitArgs "./model" "cpu" 128 32 true "fp32" 10 true
                 false "./log_output") eq_refl eq_refl)
    as [Hsame Hsettings].
  eexists. split; [reflexivity|]. split.
  - etransitivity; [symmetry; exact Hsame|reflexivity].
  - apply Hsettings. reflexivity.
Defined.

(** C3 as stated fails: a CPU predictor asked for TensorRT is built, with the
    plain CPU settings. *)
Lemma cpu_with_tensorrt_is_built :
  (∃ p, Predictor.init (λ _, true) Predictor.plain_runtime
          (Predictor.mkInitArgs "./model" "cpu" 128 32 true "fp32" 10 false
             false "./log_output") = Ok p
      ∧ Predictor.settings p
        = [Predictor.disable_gpu;
           Predictor.set_cpu_math_library_num_threads 10;
           Predictor.switch_use_feed_fetch_ops false])
  ∧ ¬ (∀ (path_exists : string → bool) (rt : Predictor.Runtime)
         (a : Predictor.InitArgs),
         Predictor.device a = "cpu" → Predictor.use_tensorrt a = true →
         raises (Predictor.init path_exists rt a)).
Proof.
  split.
  - eexists. split; reflexivity.
  - intros Hclaim.
    destruct (Hclaim (λ _, true) Predictor.plain_runtime
                (Predictor.mkInitArgs "./model" "cpu" 128 32 true "fp32" 10
                   false false "./log_output") eq_refl eq_refl) as [e He].
    discriminate He.
Qed.

(** C4, as the code has it. With [device = "gpu"], [use_tensorrt = False]
    and a precision of the table that maps to [Int8] or [Half], the
    precision is looked up and then not passed to the configuration: the
    device chain does what it does for ["fp32"], a predictor that is built
    has the plain GPU settings, and without [benchmark] the whole outcome is
    the one for ["fp32"]. With [benchmark] the precision string still
    reaches the logger, as its [model_precision]. *)
Theorem gpu_precision_unused_without_tensorrt :
  ∀ (path_exists : string → bool) (rt : Predictor.Runtime)
    (a : Predictor.InitArgs),
    Predictor.device a = "gpu" →
    Predictor.use_tensorrt a = false →
    (Predictor.precision_map !! Predictor.precision a = Some Predictor.Int8
     ∨ Predictor.precision_map !! Predictor.precision a
       = Some Predictor.Half) →
    (∀ config,
       Predictor.configure_device rt a config
       = Predictor.configure_device rt (Predictor.with_precision "fp32" a)
           config)
    ∧ (∀ p, Predictor.init path_exists rt a = Ok p →
            Predictor.settings p
            = [Predictor.enable_use_gpu 100 0;
               Predictor.switch_use_feed_fetch_ops false])
    ∧ (Predictor.benchmark a = false →
       Predictor.init path_exists rt a
       = Predictor.init path_exists rt (Predictor.with_precision "fp32" a))
    ∧ (∀ p, Predictor.init path_exists rt a = Ok p →
            Predictor.benchmark a = true →
            ∃ autolog, Predictor.self_autolog p = Some autolog
                     ∧ Predictor.model_precision autolog
                       = Predictor.precision a).
Proof.
  intros path_exists rt a Hdev Htrt Hprec.
  assert (∀ config,
            Predictor.configure_device rt a config
            = Predictor.configure_device rt
                (Predictor.with_precision "fp32" a) config) as Hchain.
  { intros config. unfold Predictor.configure_device. simpl.
    rewrite Hdev, Htrt. simpl.
    destruct (Predictor.invoke rt _ config) as [config'|e]; simpl;
      [|reflexivity].
    rewrite (precision_lookup_known "fp32" Predictor.Float32) by reflexivity.
    destruct Hprec as [H|H]; rewrite (precision_lookup_known _ _ H);
      reflexivity. }
  split; [exact Hchain|]. split; [|split].
  - intros p Hinit.
    destruct (init_settings_cases _ _ _ _ Hinit)
      as [(_ & m & _ & Hs)|[(Hcpu & _)|[(Hxpu & _)|(Hgpu & _)]]];
      [|congruence..].
    rewrite Hs, Htrt. reflexivity.
  - intros Hbench. unfold Predictor.init. simpl. rewrite Hchain.
    unfold Predictor.build, Predictor.make_autolog. simpl.
    rewrite Hbench. reflexivity.
  - intros p Hinit Hbench.
    apply init_Ok_inv in Hinit as (_ & c & _ & Hbuild).
    apply build_Ok in Hbuild as [_ Hlog]. rewrite Hbench in Hlog.
    eexists. split; [exact Hlog|reflexivity].
Qed.

Lemma gpu_precision_unused_without_tensorrt_witness :
  ∃ p, Predictor.init (λ _, true) Predictor.plain_runtime
         (Predictor.mkInitArgs "./model" "gpu" 128 32 false "fp16" 10 false
            false "./log_output") = Ok p
     ∧ Predictor.settings p
       = [Predictor.enable_use_gpu 100 0;
          Predictor.switch_use_feed_fetch_ops false]
     ∧ Predictor.init (λ _, true) Predictor.plain_runtime
         (Predictor.mkInitArgs "./model" "gpu" 128 32 false "fp32" 10 false
            false "./log_output") = Ok p.
Proof.
  destruct (gpu_precision_unused_without_tensorrt (λ _, true)
              Predictor.plain_runtime
              (Predictor.mkInitArgs "./model" "gpu" 128 32 false "fp16" 10
                 false false "./log_output") eq_refl eq_refl
              (or_intror eq_refl))
    as (_ & Hsettings & Hsame & _).
  eexists. split; [reflexivity|]. split.
  - apply Hsettings. reflexivity.
  - etransitivity; [symmetry; exact (Hsame eq_refl)|reflexivity].
Defined.

(** C4 as stated fails: a GPU predictor asked for [int8] without TensorRT is
    built, and nothing in its settings carries the precision. *)
Lemma gpu_int8_without_tensorrt_is_built :
  (∃ p, Predictor.init (λ _, true) Predictor.plain_runtime
          (Predictor.mkInitArgs "./model" "gpu" 128 32 false "int8" 10 false
             false "./log_output") = Ok p
      ∧ Predictor.settings p
        = [Predictor.enable_use_gpu 100 0;
           Predictor.switch_use_feed_fetch_ops false])
  ∧ ¬ (∀ (path_exists : string → bool) (rt : Predictor.Runtime)
         (a : Predictor.InitArgs),
         Predictor.device a = "gpu" → Predictor.use_tensorrt a = false →
         (Predictor.precision_map !! Predictor.precision a
          = Some Predictor.Int8
          ∨ Predictor.precision_map !! Predictor.precision a
            = Some Predictor.Half) →
         raises (Predictor.init path_exists rt a)).
Proof.
  split.
  - eexists. split; reflexivity.
  - intros Hclaim.
    destruct (Hclaim (λ _, true) Predictor.plain_runtime
                (Predictor.mkInitArgs "./model" "gpu" 128 32 false "int8" 10
                   false false "./log_output") eq_refl eq_refl
                (or_introl eq_refl)) as [e He].
    discriminate He.
Qed.

(** C7. The resolved settings are a function of the options: two
    constructions whose device, precision, [use_tensorrt], batch size,
    thread count and [enable_mkldnn] agree end with equal settings, whatever
    else differs between the calls (model directory, file system, runtime,
    sequence length, benchmark flag, log path). *)
Theorem resolution_is_deterministic :
  ∀ (fs1 fs2 : string → bool) (rt1 rt2 : Predictor.Runtime)
    (a1 a2 : Predictor.InitArgs) (p1 p2 : Predictor.Predictor),
    Predictor.same_options a1 a2 →
    Predictor.init fs1 rt1 a1 = Ok p1 →
    Predictor.init fs2 rt2 a2 = Ok p2 →
    Predictor.settings p1 = Predictor.settings p2.
Proof.
  intros fs1 fs2 rt1 rt2 a1 a2 p1 p2 (Hd & Hp & Ht & Hb & Hc & Hm) H1 H2.
  destruct (init_settings_cases _ _ _ _ H1)
    as [(Hd1 & m1 & Hm1 & ->)|[(Hd1 & ->)|[(Hd1 & ->)|(? & ? & ? & ->)]]];
    destruct (init_settings_cases _ _ _ _ H2)
      as [(Hd2 & m2 & Hm2 & ->)|[(Hd2 & ->)|[(Hd2 & ->)|(? & ? & ? & ->)]]];
    try congruence.
  - rewrite Hp, Hm2 in Hm1. injection Hm1 as <-.
    rewrite Ht, Hb. reflexivity.
  - rewrite Hc, Hm. reflexivity.
Qed.

Lemma resolution_is_deterministic_witness :
  ∃ p1 p2,
    Predictor.init (λ _, true) Predictor.plain_runtime
      (Predictor.mkInitArgs "./a" "gpu" 128 32 true "fp16" 10 false false
         "./log_output") = Ok p1
    ∧ Predictor.init (λ path, bool_decide (path ≠ "missing"))
        (Predictor.mkRuntime (λ _ _, None)
           (λ _, Ok (Predictor.mkEngine ["ids"] ["probs"; "aux"]
                       (λ _, None)))
           None 7 (λ _, None))
        (Predictor.mkInitArgs "./b/" "gpu" 64 32 true "fp16" 10 false true
           "./elsewhere") = Ok p2
    ∧ p1 ≠ p2
    ∧ Predictor.settings p1 = Predictor.settings p2.
Proof.
  eexists. eexists.
  split; [reflexivity|]. split; [reflexivity|]. split; [discriminate|].
  apply (resolution_is_deterministic (λ _, true)
           (λ path, bool_decide (path ≠ "missing"))
           Predictor.plain_runtime
           (Predictor.mkRuntime (λ _ _, None)
              (λ _, Ok (Predictor.mkEngine ["ids"] ["probs"; "aux"]
                          (λ _, None)))
              None 7 (λ _, None))
           (Predictor.mkInitArgs "./a" "gpu" 128 32 true "fp16" 10 false
              false "./log_output")
           (Predictor.mkInitArgs "./b/" "gpu" 64 32 true "fp16" 10 false true
              "./elsewhere")).
  - repeat split.
  - reflexivity.
  - reflexivity.
Defined.

(** ** Classification decode *)

Section ArgmaxOrder.
Import Classify.
Context {score : Type} (le : score → score → bool).
Hypothesis le_total : ∀ x y, le x y = true ∨ le y x = true.
Hypothesis le_trans :
  ∀ x y z, le x y = true → le y z = true → le x z = true.

Lemma isnan_false (x : score) : isnan le x = false.
Proof. unfold isnan. destruct (le_total x x) as [->| ->]; reflexivity. Qed.

Lemma not_le_flip (x y : score) : le x y = false → le y x = true.
Proof. intros H. destruct (le_total x y) as [H'|H']; congruence. Qed.

(** The scan's invariant: [mp] sits at [max_ind] in the part already
    [seen], bounds all of it, and is strictly above what precedes it. *)
Lemma argmax_scan_stable (rest seen : list score) (mp : score)
    (max_ind : nat) :
  seen !! max_ind = Some mp →
  (∀ j x, seen !! j = Some x → le x mp = true) →
  (∀ j x, (j < max_ind)%nat → seen !! j = Some x → le mp x = false) →
  stable_argmax le (seen ++ rest)
    (argmax_scan le (length seen) rest mp max_ind).
Proof.
  revert seen mp max_ind.
  induction rest as [|x rest IH]; intros seen mp max_ind Hmp Hmax Hfirst.
  - simpl. rewrite app_nil_r. exists mp. auto.
  - simpl.
    replace (seen ++ x :: rest) with ((seen ++ [x]) ++ rest)
      by (rewrite <- app_assoc; reflexivity).
    replace (S (length seen)) with (length (seen ++ [x]))
      by (rewrite length_app; simpl; lia).
    destruct (le x mp) eqn:Hx.
    + apply IH.
      * apply lookup_app_l_Some, Hmp.
      * intros j y Hj.
        apply lookup_snoc_Some in Hj as [[_ Hj]|[_ Heq]]; [eauto|].
        subst y. exact Hx.
      * intros j y Hlt Hj.
        apply lookup_snoc_Some in Hj as [[_ Hj]|[Hlen _]]; [eauto|].
        apply lookup_lt_Some in Hmp. lia.
    + rewrite isnan_false. apply IH.
      * apply list_lookup_middle. reflexivity.
      * intros j y Hj.
        apply lookup_snoc_Some in Hj as [[_ Hj]|[_ Heq]].
        -- eapply le_trans; [eapply Hmax, Hj|apply not_le_flip, Hx].
        -- subst y. destruct (le_total x x); assumption.
      * intros j y Hlt Hj.
        apply lookup_snoc_Some in Hj as [[_ Hj]|[Hlen _]]; [|lia].
        destruct (le x y) eqn:Hxy; [|reflexivity].
        rewrite (le_trans x y mp Hxy (Hmax _ _ Hj)) in Hx. discriminate.
Qed.

Lemma argmax_row_stable (row : list score) (i : nat) :
  argmax_row le row = Some i → stable_argmax le row i.
Proof.
  destruct row as [|mp rest]; simpl; [discriminate|].
  rewrite isnan_false. intros [= <-].
  apply (argmax_scan_stable rest [mp] mp 0%nat).
  - reflexivity.
  - intros [|j] x; simpl; [|discriminate].
    intros [= Heq]. subst x. destruct (le_total mp mp); assumption.
  - intros j x Hlt. lia.
Qed.
(** The stable argmax is unique, so it is the index the scan returns. *)
Lemma stable_argmax_is_argmax_row (row : list score) (i : nat) :
  stable_argmax le row i → argmax_row le row = Some i.
Proof.
  intros (m & Hm & Hmax & Hfirst).
  destruct (argmax_row le row) as [j|] eqn:Hj.
  - destruct (argmax_row_stable row j Hj) as (m' & Hm' & Hmax' & Hfirst').
    f_equal.
    destruct (Nat.lt_trichotomy i j) as [Hlt|[Heq|Hgt]]; [|congruence|].
    + pose proof (Hfirst' i m Hlt Hm) as Hno.
      rewrite (Hmax j m' Hm') in Hno. discriminate Hno.
    + pose proof (Hfirst j m' Hgt Hm') as Hno.
      rewrite (Hmax' i m Hm) in Hno. discriminate Hno.
  - destruct row; [discriminate Hm|discriminate Hj].
Qed.
End ArgmaxOrder.

Section Decode.
Import Classify.
Context {score : Type} (le : score → score → bool).

Lemma argmax_row_nonempty (row : list score) :
  row ≠ [] → ∃ i, argmax_row le row = Some i.
Proof. destruct row; [congruence|]. intros _. eexists. reflexivity. Qed.

Lemma np_argmax_axis1_Ok (probs : ndarray2) (idx : list nat) :
  np_argmax_axis1 le probs = Ok idx ↔
  ncols probs ≠ 0%nat
  ∧ Forall2 (λ r i, argmax_row le r = Some i) (rows probs) idx.
Proof.
  unfold np_argmax_axis1.
  destruct (Nat.eqb_spec (ncols probs) 0) as [Hz|Hnz].
  - split; [discriminate|]. intros [Hne _]. contradiction.
  - rewrite comprehension_Ok. split.
    + intros H. split; [exact Hnz|].
      eapply Forall2_impl; [exact H|]. intros r i. simpl.
      destruct (argmax_row le r); [|discriminate]. intros [= ->].
      reflexivity.
    + intros [_ H]. eapply Forall2_impl; [exact H|].
      intros r i ->. reflexivity.
Qed.

Lemma np_argmax_axis1_rectangular (probs : ndarray2) :
  rectangular probs → (0 < ncols probs)%nat →
  ∃ idx, np_argmax_axis1 le probs = Ok idx.
Proof.
  intros Hrect Hpos.
  assert (∃ idx, Forall2 (λ r i, argmax_row le r = Some i) (rows probs) idx)
    as [idx Hidx].
  { unfold rectangular in Hrect.
    induction Hrect as [|r rs Hr _ [idx IH]].
    - exists []. constructor.
    - destruct (argmax_row_nonempty r) as [i Hi].
      + intros ->. simpl in Hr. lia.
      + exists (i :: idx). constructor; assumption. }
  exists idx. apply np_argmax_axis1_Ok. split; [lia|exact Hidx].
Qed.

Lemma getitem_Ok (label_map : gmap Z string) (i : Z) (label : string) :
  getitem label_map i = Ok label ↔ label_map !! i = Some label.
Proof.
  unfold getitem. destruct (label_map !! i); split; congruence.
Qed.

(** The comprehension over [label_map] stops at the first absent index. *)
Lemma labels_raise (label_map : gmap Z string) (idx : list Z) :
  (∃ i, i ∈ idx ∧ label_map !! i = None) →
  ∃ i, i ∈ idx ∧ label_map !! i = None
     ∧ comprehension (getitem label_map) idx = Raise (KeyError (IntKey i)).
Proof.
  induction idx as [|j idx IH]; intros (i & Hin & Hnone).
  - inversion Hin.
  - rewrite comprehension_cons. unfold getitem at 1.
    destruct (label_map !! j) as [label|] eqn:Hj.
    + assert (i ∈ idx) as Hin'.
      { apply elem_of_cons in Hin as [->|Hin]; [congruence|exact Hin]. }
      destruct IH as (k & Hk & Hknone & Hraise); [eauto|].
      rewrite Hraise.
      exists k. split; [right; exact Hk|]. split; [exact Hknone|reflexivity].
    + exists j. split; [left|]. split; [exact Hj|reflexivity].
Qed.

(** When the decode step returns, each label is the entry of its row's
    argmax. *)
Lemma decode_Ok (probs : ndarray2) (label_map : gmap Z string)
    (labels : list string) :
  decode le probs label_map = Ok labels ↔
  ncols probs ≠ 0%nat
  ∧ Forall2 (λ r label, ∃ i, argmax_row le r = Some i
                           ∧ label_map !! Z.of_nat i = Some label)
      (rows probs) labels.
Proof.
  unfold decode. split.
  - destruct (np_argmax_axis1 le probs) as [idx|e] eqn:Hidx; simpl;
      [|discriminate].
    apply np_argmax_axis1_Ok in Hidx as [Hne Hidx].
    rewrite comprehension_Ok, Forall2_fmap_l. intros Hlabels.
    split; [exact Hne|].
    eapply Forall2_trans; [|exact Hidx|exact Hlabels].
    intros r i label Hr Hi. exists i. split; [exact Hr|].
    apply getitem_Ok, Hi.
  - intros [Hne Hall].
    assert (∃ idx, Forall2 (λ r i, argmax_row le r = Some i) (rows probs) idx
                 ∧ Forall2 (λ i label,
                              label_map !! Z.of_nat i = Some label)
                     idx labels) as (idx & Hidx & Hlabels).
    { induction Hall as [|r label rs ls (i & Hr & Hi) _ (idx & H1 & H2)].
      - exists []. split; constructor.
      - exists (i :: idx). split; constructor; assumption. }
    rewrite (proj2 (np_argmax_axis1_Ok probs idx) (conj Hne Hidx)). simpl.
    apply comprehension_Ok, Forall2_fmap_l.
    eapply Forall2_impl; [exact Hlabels|].
    intros i label Hi. apply getitem_Ok, Hi.
Qed.

Lemma decode_unfold (probs : ndarray2) (label_map : gmap Z string)
    (idx : list nat) :
  np_argmax_axis1 le probs = Ok idx →
  decode le probs label_map
  = comprehension (getitem label_map) (Z.of_nat <$> idx).
Proof. intros H. unfold decode. rewrite H. reflexivity. Qed.
End Decode.

Lemma Qle_bool_total (x y : Q) : Qle_bool x y = true ∨ Qle_bool y x = true.
Proof.
  rewrite !Qle_bool_iff. destruct (Qlt_le_dec x y) as [Hlt|Hle].
  - left. apply Qlt_le_weak, Hlt.
  - right. exact Hle.
Qed.

Lemma Qle_bool_trans (x y z : Q) :
  Qle_bool x y = true → Qle_bool y z = true → Qle_bool x z = true.
Proof. rewrite !Qle_bool_iff. apply Qle_trans. Qed.

(** C5. Over scores compared by a total, transitive [<=], the decode step
    takes for each row of a score matrix the index of a maximum that is
    strictly above every earlier entry (the first maximum), and its result is
    those indices looked up in [label_map]; for the row [[0.2, 0.9, 0.9]]
    the index is 1 and the result is [label_map[1]]. *)
Theorem classification_decode_stable_argmax :
  (∀ (score : Type) (le : score → score → bool),
     (∀ x y, le x y = true ∨ le y x = true) →
     (∀ x y z, le x y = true → le y z = true → le x z = true) →
     ∀ (probs : Classify.ndarray2) (label_map : gmap Z string),
       Classify.rectangular probs → (0 < Classify.ncols probs)%nat →
       ∃ idx,
         Classify.np_argmax_axis1 le probs = Ok idx
         ∧ Forall2 (Classify.stable_argmax le) (Classify.rows probs) idx
         ∧ Classify.decode le probs label_map
           = comprehension (Classify.getitem label_map) (Z.of_nat <$> idx))
  ∧ Classify.argmax_row Qle_bool [0.2; 0.9; 0.9]%Q = Some 1%nat
  ∧ (∀ (label_map : gmap Z string) (label : string),
       label_map !! 1 = Some label →
       Classify.decode Qle_bool
         (Classify.mkArray 3 [[0.2; 0.9; 0.9]]%Q) label_map
       = Ok [label]).
Proof.
  split; [|split].
  - intros score le Htotal Htrans probs label_map Hrect Hpos.
    destruct (np_argmax_axis1_rectangular le probs Hrect Hpos) as [idx Hidx].
    exists idx. split; [exact Hidx|]. split.
    + apply np_argmax_axis1_Ok in Hidx as [_ Hidx].
      eapply Forall2_impl; [exact Hidx|].
      intros r i. apply argmax_row_stable; assumption.
    + apply decode_unfold, Hidx.
  - reflexivity.
  - intros label_map label Hlabel.
    apply decode_Ok. split; [discriminate|].
    constructor; [|constructor].
    exists 1%nat. split; [reflexivity|exact Hlabel].
Qed.

Lemma classification_decode_stable_argmax_witness :
  ∃ idx,
    Classify.np_argmax_axis1 Qle_bool
      (Classify.mkArray 3 [[0.2; 0.9; 0.9]; [0.5; 0.1; 0.5]]%Q) = Ok idx
    ∧ Forall2 (Classify.stable_argmax Qle_bool)
        [[0.2; 0.9; 0.9]; [0.5; 0.1; 0.5]]%Q idx
    ∧ Classify.decode Qle_bool
        (Classify.mkArray 3 [[0.2; 0.9; 0.9]; [0.5; 0.1; 0.5]]%Q)
        (<[0 := "dissimilar"]> (<[1 := "similar"]> ∅))
      = comprehension
          (Classify.getitem (<[0 := "dissimilar"]> (<[1 := "similar"]> ∅)))
          (Z.of_nat <$> idx).
Proof.
  apply (proj1 classification_decode_stable_argmax Q Qle_bool
           Qle_bool_total Qle_bool_trans
           (Classify.mkArray 3 [[0.2; 0.9; 0.9]; [0.5; 0.1; 0.5]]%Q)
           (<[0 := "dissimilar"]> (<[1 := "similar"]> ∅))).
  - repeat constructor.
  - simpl. lia.
Defined.

(** C8. If the argmax index of some row of a score matrix has no entry in
    [label_map], the decode step raises [KeyError] for an absent index and
    returns no labels; so does [predict]. *)
Theorem unknown_label_index_raises :
  ∀ (score : Type) (le : score → score → bool)
    (probs : Classify.ndarray2) (label_map : gmap Z string),
    Classify.rectangular probs →
    (∃ r i, r ∈ Classify.rows probs
          ∧ Classify.argmax_row le r = Some i
          ∧ label_map !! Z.of_nat i = None) →
    ∃ i : nat,
      label_map !! Z.of_nat i = None
      ∧ (∃ r, r ∈ Classify.rows probs ∧ Classify.argmax_row le r = Some i)
      ∧ Classify.decode le probs label_map
        = Raise (KeyError (IntKey (Z.of_nat i)))
      ∧ (∀ args_benchmark self,
           Classify.predict_tail le args_benchmark self probs label_map
           = Raise (KeyError (IntKey (Z.of_nat i)))).
Proof.
  intros score le probs label_map Hrect (r & i & Hr & Hi & Hnone).
  assert (0 < Classify.ncols probs)%nat as Hpos.
  { unfold Classify.rectangular in Hrect. rewrite Forall_forall in Hrect.
    rewrite <- (Hrect r Hr). destruct r; [discriminate|simpl; lia]. }
  destruct (np_argmax_axis1_rectangular le probs Hrect Hpos) as [idx Hidx].
  pose proof (proj1 (np_argmax_axis1_Ok le probs idx) Hidx) as [_ Hall].
  destruct (labels_raise label_map (Z.of_nat <$> idx))
    as (z & Hz & Hznone & Hraise).
  { exists (Z.of_nat i). split; [|exact Hnone].
    apply list_elem_of_fmap_2.
    apply list_elem_of_lookup in Hr as [k Hk].
    destruct (Forall2_lookup_l _ _ _ _ _ Hall Hk) as (i' & Hk' & Hi').
    rewrite Hi in Hi'. injection Hi' as <-.
    eapply list_elem_of_lookup_2, Hk'. }
  apply list_elem_of_fmap in Hz as (j & -> & Hj).
  assert (Classify.decode le probs label_map
          = Raise (KeyError (IntKey (Z.of_nat j)))) as Hdecode.
  { rewrite (decode_unfold le probs label_map idx Hidx). exact Hraise. }
  exists j. split; [exact Hznone|]. split; [|split].
  - apply list_elem_of_lookup in Hj as [k Hk].
    destruct (Forall2_lookup_r _ _ _ _ _ Hall Hk) as (r' & Hk' & Hr').
    exists r'. split; [eapply list_elem_of_lookup_2, Hk'|exact Hr'].
  - exact Hdecode.
  - intros args_benchmark self. unfold Classify.predict_tail.
    rewrite Hdecode. reflexivity.
Qed.

Lemma unknown_label_index_raises_witness :
  ∃ i : nat,
    (<[0 := "dissimilar"]> (<[1 := "similar"]> ∅) : gmap Z string)
      !! Z.of_nat i = None
    ∧ (∃ r, r ∈ [[0.5; 0.1; 0.2]; [0.2; 0.1; 0.7]]%Q
          ∧ Classify.argmax_row Qle_bool r = Some i)
    ∧ Classify.decode Qle_bool
        (Classify.mkArray 3 [[0.5; 0.1; 0.2]; [0.2; 0.1; 0.7]]%Q)
        (<[0 := "dissimilar"]> (<[1 := "similar"]> ∅))
      = Raise (KeyError (IntKey (Z.of_nat i)))
    ∧ (∀ args_benchmark self,
         Classify.predict_tail Qle_bool args_benchmark self
           (Classify.mkArray 3 [[0.5; 0.1; 0.2]; [0.2; 0.1; 0.7]]%Q)
           (<[0 := "dissimilar"]> (<[1 := "similar"]> ∅))
         = Raise (KeyError (IntKey (Z.of_nat i)))).
Proof.
  apply (unknown_label_index_raises Q Qle_bool
           (Classify.mkArray 3 [[0.5; 0.1; 0.2]; [0.2; 0.1; 0.7]]%Q)
           (<[0 := "dissimilar"]> (<[1 := "similar"]> ∅))).
  - repeat constructor.
  - exists [0.2; 0.1; 0.7]%Q, 2%nat.
    split; [|split]; [|reflexivity|reflexivity].
    right. left.
Defined.

(** C10. For a score matrix with at least one class, over scores compared
    by a total, transitive [<=], whose rows' stable argmax indices are all
    keys of [label_map], the decode step returns one label per row, in row
    order: the k-th label is the entry of the stable argmax of the k-th
    row. *)
Theorem decode_preserves_length_and_order :
  ∀ (score : Type) (le : score → score → bool)
    (probs : Classify.ndarray2) (label_map : gmap Z string),
    (∀ x y, le x y = true ∨ le y x = true) →
    (∀ x y z, le x y = true → le y z = true → le x z = true) →
    (0 < Classify.ncols probs)%nat →
    (∀ r, r ∈ Classify.rows probs →
          ∃ i, Classify.stable_argmax le r i
             ∧ is_Some (label_map !! Z.of_nat i)) →
    ∃ labels,
      Classify.decode le probs label_map = Ok labels
      ∧ length labels = length (Classify.rows probs)
      ∧ (∀ k r, Classify.rows probs !! k = Some r →
                ∃ i label, Classify.stable_argmax le r i
                         ∧ label_map !! Z.of_nat i = Some label
                         ∧ labels !! k = Some label).
Proof.
  intros score le probs label_map Htotal Htrans Hpos Hrows.
  assert (∃ labels,
            Forall2 (λ r label, ∃ i, Classify.argmax_row le r = Some i
                                   ∧ label_map !! Z.of_nat i = Some label)
              (Classify.rows probs) labels) as [labels Hall].
  { apply Forall_exists_Forall2_l, Forall_forall. intros r Hr.
    destruct (Hrows r Hr) as (i & Hi & label & Hlabel).
    exists label, i. split; [|exact Hlabel].
    apply stable_argmax_is_argmax_row; assumption. }
  exists labels. split; [|split].
  - apply decode_Ok. split; [lia|exact Hall].
  - symmetry. eapply Forall2_length, Hall.
  - intros k r Hk.
    destruct (Forall2_lookup_l _ _ _ _ _ Hall Hk)
      as (label & Hlabel & i & Hi & Hmap).
    exists i, label. split; [|split; assumption].
    apply argmax_row_stable; assumption.
Qed.

Lemma decode_preserves_length_and_order_witness :
  ∃ labels,
    Classify.decode Qle_bool
      (Classify.mkArray 3 [[0.2; 0.9; 0.9]; [0.5; 0.1; 0.2]]%Q)
      (<[0 := "dissimilar"]> (<[1 := "similar"]> ∅))
    = Ok labels
    ∧ length labels = 2%nat
    ∧ (∀ k r, [[0.2; 0.9; 0.9]; [0.5; 0.1; 0.2]]%Q !! k = Some r →
              ∃ i label,
                Classify.stable_argmax Qle_bool r i
                ∧ (<[0 := "dissimilar"]> (<[1 := "similar"]> ∅)
                     : gmap Z string) !! Z.of_nat i = Some label
                ∧ labels !! k = Some label).
Proof.
  apply (decode_preserves_length_and_order Q Qle_bool
           (Classify.mkArray 3 [[0.2; 0.9; 0.9]; [0.5; 0.1; 0.2]]%Q)
           (<[0 := "dissimilar"]> (<[1 := "similar"]> ∅))).
  - apply Qle_bool_total.
  - apply Qle_bool_trans.
  - simpl. lia.
  - intros r Hr. simpl in Hr.
    apply elem_of_cons in Hr as [->|Hr];
      [|apply elem_of_cons in Hr as [->|Hr]; [|inversion Hr]].
    + exists 1%nat. split; [|exists "similar"; reflexivity].
      apply (argmax_row_stable Qle_bool Qle_bool_total Qle_bool_trans).
      reflexivity.
    + exists 0%nat. split; [|exists "dissimilar"; reflexivity].
      apply (argmax_row_stable Qle_bool Qle_bool_total Qle_bool_trans).
      reflexivity.
Defined.

(** Run as the script ([args] bound, the predictor built from
    [args.benchmark]), [predict] returns what the decode step returns. *)
Lemma predict_tail_as_script {score : Type} (le : score → score → bool)
    (flag : bool) (self : Predictor.Predictor)
    (probs : Classify.ndarray2) (label_map : gmap Z string) :
  (flag = true → is_Some (Predictor.self_autolog self)) →
  Classify.predict_tail le (Some flag) self probs label_map
  = Classify.decode le probs label_map.
Proof.
  intros Hflag. unfold Classify.predict_tail.
  destruct (Classify.decode le probs label_map) as [labels|e]; simpl;
    [|reflexivity].
  destruct flag; [|reflexivity].
  destruct (Hflag eq_refl) as [autolog ->]. reflexivity.
Qed.

(** ** Batch assembly *)

Section Assembly.
Import Assembler.

Lemma longest_bounds (sequences : list (list Z)) (s : list Z) :
  s ∈ sequences → (length s ≤ longest sequences)%nat.
Proof.
  induction sequences as [|t sequences IH]; intros Hin.
  - inversion Hin.
  - simpl. apply elem_of_cons in Hin as [->|Hin]; [lia|].
    specialize (IH Hin). lia.
Qed.

Lemma longest_attained (sequences : list (list Z)) :
  sequences ≠ [] → ∃ s, s ∈ sequences ∧ length s = longest sequences.
Proof.
  induction sequences as [|t sequences IH]; intros Hne; [congruence|].
  destruct sequences as [|u sequences].
  - exists t. split; [left|]. simpl. lia.
  - destruct IH as (s & Hin & Hlen); [discriminate|].
    change (longest (t :: u :: sequences))
      with (Nat.max (length t) (longest (u :: sequences))).
    destruct (Nat.max_spec (length t) (longest (u :: sequences)))
      as [[_ ->]|[_ ->]].
    + exists s. split; [right; exact Hin|exact Hlen].
    + exists t. split; [left|reflexivity].
Qed.

Lemma pad_row_length (pad_id : Z) (pad_side : PadSide) (width : nat)
    (s : list Z) :
  (length s ≤ width)%nat →
  length (pad_row pad_id pad_side width s) = width.
Proof.
  intros Hle. unfold pad_row.
  destruct pad_side; rewrite length_app, length_replicate; lia.
Qed.
End Assembly.

(** C2. For a non-empty list of sequences, [assemble] returns a batch whose
    width is the true maximum input length, with one row per sequence in
    input order; row i is sequence i followed (Trailing) or preceded
    (Leading) by exactly [max_len - len_i] copies of [pad_id], so every row
    has the batch width and the unpadded part is the source sequence. On
    [[[1,2,3],[4,5]]], pad 0, Trailing, the rows are [[1,2,3]] and
    [[4,5,0]]. *)
Theorem assemble_pads_in_order :
  (∀ (sequences : list (list Z)) (pad_id : Z)
     (pad_side : Assembler.PadSide),
     sequences ≠ [] →
     ∃ b, Assembler.assemble sequences pad_id pad_side = inr b
        ∧ (∃ s, s ∈ sequences ∧ length s = Assembler.max_len b)
        ∧ (∀ s, s ∈ sequences → (length s ≤ Assembler.max_len b)%nat)
        ∧ length (Assembler.batch_rows b) = length sequences
        ∧ (∀ i s, sequences !! i = Some s →
             ∃ row, Assembler.batch_rows b !! i = Some row
                  ∧ length row = Assembler.max_len b
                  ∧ match pad_side with
                    | Assembler.Trailing =>
                        row = s ++ replicate
                                     (Assembler.max_len b - length s) pad_id
                        ∧ take (length s) row = s
                    | Assembler.Leading =>
                        row = replicate
                                (Assembler.max_len b - length s) pad_id ++ s
                        ∧ drop (Assembler.max_len b - length s) row = s
                    end))
  ∧ Assembler.assemble [[1; 2; 3]; [4; 5]] 0 Assembler.Trailing
    = inr (Assembler.mkBatch [[1; 2; 3]; [4; 5; 0]] 3 0).
Proof.
  split; [|reflexivity].
  intros sequences pad_id pad_side Hne.
  exists (Assembler.mkBatch
            (Assembler.pad_row pad_id pad_side (Assembler.longest sequences)
               <$> sequences)
            (Assembler.longest sequences) pad_id).
  split; [destruct sequences; [congruence|reflexivity]|]. simpl.
  split; [apply longest_attained, Hne|].
  split; [apply longest_bounds|].
  split; [apply length_fmap|].
  intros i s Hi. eexists.
  split; [rewrite list_lookup_fmap, Hi; reflexivity|].
  split.
  - apply pad_row_length, longest_bounds.
    eapply list_elem_of_lookup_2, Hi.
  - unfold Assembler.pad_row. destruct pad_side.
    + split; [reflexivity|].
      rewrite <- (length_replicate
                    (Assembler.longest sequences - length s) pad_id) at 1.
      apply drop_app_length.
    + split; [reflexivity|]. apply take_app_length.
Qed.

Lemma assemble_pads_in_order_witness :
  ∃ b, Assembler.assemble [[7; 8]; []; [9]] 1 Assembler.Leading = inr b
     ∧ Assembler.max_len b = 2%nat
     ∧ Assembler.batch_rows b = [[7; 8]; [1; 1]; [1; 9]].
Proof.
  destruct (proj1 assemble_pads_in_order [[7; 8]; []; [9]] 1
              Assembler.Leading)
    as (b & Hb & _).
  - discriminate.
  - exists b. split; [exact Hb|].
    injection Hb as <-. split; reflexivity.
Defined.

(** * Further properties of the code *)

(** ** Sequence decode *)

Lemma slice_to_sublist {A : Type} (l : list A) (stop : Z) :
  slice_to l stop `sublist_of` l.
Proof. unfold slice_to. destruct (stop <? 0); apply sublist_take. Qed.

Lemma filter_ext_in {A : Type} (P1 P2 : A → Prop)
    `{!∀ x, Decision (P1 x), !∀ x, Decision (P2 x)} (l : list A) :
  (∀ x, x ∈ l → (P1 x ↔ P2 x)) → filter P1 l = filter P2 l.
Proof.
  induction l as [|a l IH]; intros Hiff; [reflexivity|].
  assert (filter P1 l = filter P2 l) as Hrest.
  { apply IH. intros x Hx. apply Hiff. right. exact Hx. }
  destruct (decide (P1 a)) as [Ha|Ha].
  - rewrite !filter_cons_True; [rewrite Hrest; reflexivity| |exact Ha].
    apply (Hiff a); [left|exact Ha].
  - rewrite !filter_cons_False; [exact Hrest| |exact Ha].
    intros Ha'. apply Ha, (Hiff a); [left|exact Ha'].
Qed.

(** X1. The ids converted are a subsequence of the input: order is kept, nothing
    is added, and neither [bos_idx] nor [eos_idx] is among them. *)
Theorem kept_ids_subsequence :
  ∀ (seq : list Z) (bos_idx eos_idx : Z),
    MBart.kept_ids seq bos_idx eos_idx `sublist_of` seq
    ∧ (length (MBart.kept_ids seq bos_idx eos_idx) ≤ length seq)%nat
    ∧ (bos_idx ∉ MBart.kept_ids seq bos_idx eos_idx)
    ∧ (eos_idx ∉ MBart.kept_ids seq bos_idx eos_idx).
Proof.
  intros seq bos_idx eos_idx.
  assert (MBart.kept_ids seq bos_idx eos_idx `sublist_of` seq) as Hsub.
  { unfold MBart.kept_ids. simpl. rewrite filter_keep.
    etransitivity; [apply sublist_filter|apply slice_to_sublist]. }
  pose proof (kept_ids_clean seq bos_idx eos_idx) as Hclean.
  rewrite Forall_forall in Hclean.
  split; [exact Hsub|]. split; [apply sublist_length, Hsub|].
  split; intros Hin; destruct (Hclean _ Hin); congruence.
Qed.

(** X2. What follows the first [eos_idx] never reaches the tokenizer: the result
    is the conversion of the ids before it, without [bos_idx]. *)
Theorem ids_after_eos_are_ignored :
  ∀ (tokenizer : list Z → string) (before after : list Z)
    (bos_idx eos_idx : Z),
    eos_idx ∉ before →
    MBart.postprocess_response tokenizer (before ++ eos_idx :: after)
      bos_idx eos_idx
    = tokenizer (filter (λ idx, idx ≠ bos_idx) before).
Proof.
  intros tokenizer before after bos_idx eos_idx Hnot.
  unfold MBart.postprocess_response, MBart.kept_ids, MBart.eos_position.
  cbv zeta. rewrite scan_eos_first by exact Hnot.
  rewrite Z.add_0_l, slice_to_through, filter_keep, filter_app. f_equal.
  rewrite filter_cons, decide_False by tauto. simpl. rewrite app_nil_r.
  apply filter_ext_in. intros x Hx.
  split; [tauto|]. intros Hbos. split; [exact Hbos|]. congruence.
Qed.

Lemma ids_after_eos_are_ignored_witness :
  MBart.postprocess_response
    (λ ids, if bool_decide (ids = [17; 4]) then "seventeen four" else "?")
    ([250025; 17; 4] ++ 2 :: [1; 1; 17]) 250025 2
  = "seventeen four".
Proof.
  rewrite (ids_after_eos_are_ignored _ [250025; 17; 4] [1; 1; 17] 250025 2).
  - reflexivity.
  - intros Hin. repeat (apply elem_of_cons in Hin as [Hin|Hin];
                        [discriminate Hin|]).
    inversion Hin.
Defined.

(** X4. Where the scan stops: at the least index holding [eos_idx] when there is
    one, at the last index otherwise; in both cases within [-1, len). *)
Theorem eos_position_is_first_occurrence :
  ∀ (seq : list Z) (eos_idx : Z),
    -1 ≤ MBart.eos_position seq eos_idx < len seq
    ∧ (eos_idx ∈ seq →
       ∃ p : nat,
         MBart.eos_position seq eos_idx = Z.of_nat p
         ∧ seq !! p = Some eos_idx
         ∧ ∀ j, (j < p)%nat → seq !! j ≠ Some eos_idx)
    ∧ (eos_idx ∉ seq → MBart.eos_position seq eos_idx = len seq - 1).
Proof.
  intros seq eos_idx. unfold MBart.eos_position. cbv zeta.
  destruct (first_occurrence eos_idx seq)
    as [Hnot|(before & after & -> & Hnot)].
  - rewrite scan_eos_absent by exact Hnot.
    split; [unfold len; lia|]. split; [contradiction|reflexivity].
  - rewrite scan_eos_first by exact Hnot.
    split; [unfold len; rewrite length_app; simpl; lia|].
    split.
    + intros _. exists (length before).
      split; [unfold len; lia|].
      split; [apply list_lookup_middle; reflexivity|].
      intros j Hj Hlook. apply Hnot.
      rewrite lookup_app_l in Hlook by exact Hj.
      eapply list_elem_of_lookup_2, Hlook.
    + intros Hnot'. exfalso. apply Hnot'.
      apply elem_of_app. right. left.
Qed.

Lemma eos_position_is_first_occurrence_witness :
  ∃ p : nat,
    MBart.eos_position [0; 5; 9; 2; 1; 2] 2 = Z.of_nat p
    ∧ [0; 5; 9; 2; 1; 2] !! p = Some 2
    ∧ ∀ j, (j < p)%nat → [0; 5; 9; 2; 1; 2] !! j ≠ Some 2.
Proof.
  apply (eos_position_is_first_occurrence [0; 5; 9; 2; 1; 2] 2).
  do 3 right. left.
Defined.

(** X5. The lists decoding leaves alone are exactly those holding neither
    [bos_idx] nor [eos_idx]. *)
Theorem kept_ids_fixed_points :
  ∀ (seq : list Z) (bos_idx eos_idx : Z),
    MBart.kept_ids seq bos_idx eos_idx = seq
    ↔ (bos_idx ∉ seq) ∧ (eos_idx ∉ seq).
Proof.
  intros seq bos_idx eos_idx. split.
  - intros Hfix.
    pose proof (kept_ids_clean seq bos_idx eos_idx) as Hclean.
    rewrite Hfix, Forall_forall in Hclean.
    split; intros Hin; destruct (Hclean _ Hin); congruence.
  - intros [Hbos Heos]. apply kept_ids_of_clean, Forall_forall.
    intros x Hx. split; intros ->; contradiction.
Qed.

(** ** Predictor construction *)

(** X6. The constructor's own checks. The two file checks come before any
    library call: a missing model file, then a missing parameter file, raise
    [ValueError] whatever the runtime does. In a quiet runtime (no library
    call raises) construction raises in these two cases and one more, and
    no other: both files are there, the device is ["gpu"] and the precision
    is none of ["fp16"], ["fp32"], ["int8"] (whether or not TensorRT was
    asked for). On every other device any precision string is accepted. *)
Theorem init_raises_exactly :
  ∀ (path_exists : string → bool) (rt : Predictor.Runtime)
    (a : Predictor.InitArgs) (e : exn),
    (path_exists
       (Predictor.os_path_join (Predictor.model_dir a) "inference.pdmodel")
     = false →
     Predictor.init path_exists rt a
     = Raise (ValueError
                ("not find model file path "
                 +:+ Predictor.os_path_join (Predictor.model_dir a)
                       "inference.pdmodel")))
    ∧ (path_exists
         (Predictor.os_path_join (Predictor.model_dir a) "inference.pdmodel")
       = true →
       path_exists
         (Predictor.os_path_join (Predictor.model_dir a)
            "inference.pdiparams") = false →
       Predictor.init path_exists rt a
       = Raise (ValueError
                  ("not find params file path "
                   +:+ Predictor.os_path_join (Predictor.model_dir a)
                         "inference.pdiparams")))
    ∧ (Predictor.quiet rt →
       (Predictor.init path_exists rt a = Raise e
        ↔ (path_exists
             (Predictor.os_path_join (Predictor.model_dir a)
                "inference.pdmodel") = false
           ∧ e = ValueError
                   ("not find model file path "
                    +:+ Predictor.os_path_join (Predictor.model_dir a)
                          "inference.pdmodel"))
          ∨ (path_exists
               (Predictor.os_path_join (Predictor.model_dir a)
                  "inference.pdmodel") = true
             ∧ path_exists
                 (Predictor.os_path_join (Predictor.model_dir a)
                    "inference.pdiparams") = false
             ∧ e = ValueError
                     ("not find params file path "
                      +:+ Predictor.os_path_join (Predictor.model_dir a)
                            "inference.pdiparams"))
          ∨ (Predictor.model_present path_exists a
             ∧ Predictor.device a = "gpu"
             ∧ Predictor.precision a ≠ "fp16"
             ∧ Predictor.precision a ≠ "fp32"
             ∧ Predictor.precision a ≠ "int8"
             ∧ e = KeyError (StrKey (Predictor.precision a))))).
Proof.
  intros path_exists rt a e.
  split; [|split].
  - intros Hmodel. unfold Predictor.init. rewrite Hmodel. reflexivity.
  - intros Hmodel Hparams. unfold Predictor.init.
    rewrite Hmodel, Hparams. reflexivity.
  - intros Hquiet.
    destruct (path_exists
                (Predictor.os_path_join (Predictor.model_dir a)
                   "inference.pdmodel")) eqn:Hmodel.
    2:{ unfold Predictor.init, Predictor.model_present.
        rewrite Hmodel. simpl. split.
        - intros [= <-]. left. split; reflexivity.
        - intros [[_ ->]|[(? & _)|((? & _) & _)]];
            [reflexivity|discriminate|congruence]. }
    destruct (path_exists
                (Predictor.os_path_join (Predictor.model_dir a)
                   "inference.pdiparams")) eqn:Hparams.
    2:{ unfold Predictor.init, Predictor.model_present.
        rewrite Hmodel, Hparams. simpl. split.
        - intros [= <-]. right. left. repeat split.
        - intros [[? _]|[(_ & _ & ->)|((_ & ?) & _)]];
            [discriminate|reflexivity|congruence]. }
    rewrite (init_quiet_Raise path_exists rt a e Hquiet (conj Hmodel Hparams)).
    rewrite precision_map_None. unfold Predictor.model_present.
    rewrite Hmodel, Hparams. split.
    + intros (Hdev & (H16 & H32 & Hint) & ->). right. right.
      repeat split; assumption.
    + intros [[? _]|[(_ & ? & _)|(_ & Hdev & H16 & H32 & Hint & ->)]];
        [discriminate|discriminate|].
      repeat split; assumption.
Qed.

Lemma init_raises_exactly_witness :
  Predictor.init (λ _, true) Predictor.plain_runtime
    (Predictor.mkInitArgs "./model" "gpu" 128 32 false "fp64" 10 false false
       "./log_output")
  = Raise (KeyError (StrKey "fp64")).
Proof.
  apply (init_raises_exactly (λ _, true) Predictor.plain_runtime
           (Predictor.mkInitArgs "./model" "gpu" 128 32 false "fp64" 10 false
              false "./log_output") (KeyError (StrKey "fp64"))).
  - apply plain_runtime_quiet.
  - right. right. repeat split; discriminate.
Defined.

Ltac settings_membership :=
  repeat match goal with
         | H : Predictor.settings _ = _ |- _ => rewrite H; clear H
         end;
  repeat match goal with
         | |- context [if ?b then _ else _] => destruct b eqn:?
         end;
  simpl; rewrite ?elem_of_cons, ?elem_of_nil;
  (split;
   [intros; destruct_or?; simplify_eq; repeat split; congruence
   |intros; destruct_and?; simplify_eq; try congruence; auto 10]).

(** X7. The TensorRT engine is enabled exactly when the device is ["gpu"] and
    [use_tensorrt] is set; it then gets [batch_size] as maximum batch size,
    30 as minimum subgraph size and the precision the table gives. *)
Theorem tensorrt_enabled_exactly :
  ∀ (path_exists : string → bool) (rt : Predictor.Runtime)
    (a : Predictor.InitArgs)
    (p : Predictor.Predictor) (max_batch min_subgraph : Z)
    (mode : Predictor.PrecisionType),
    Predictor.init path_exists rt a = Ok p →
    (Predictor.enable_tensorrt_engine max_batch min_subgraph mode
       ∈ Predictor.settings p
     ↔ Predictor.device a = "gpu"
       ∧ Predictor.use_tensorrt a = true
       ∧ max_batch = Predictor.batch_size a
       ∧ min_subgraph = 30
       ∧ Predictor.precision_map !! Predictor.precision a = Some mode).
Proof.
  intros path_exists rt a p max_batch min_subgraph mode Hinit.
  destruct (init_settings_cases _ _ _ _ Hinit)
    as [(Hdev & m & Hm & Hs)|[(Hdev & Hs)|[(Hdev & Hs)|(Hg & Hc & Hx & Hs)]]];
    clear Hinit; settings_membership.
Qed.

Lemma tensorrt_enabled_exactly_witness :
  ∃ p,
    Predictor.init (λ _, true) Predictor.plain_runtime
      (Predictor.mkInitArgs "./model" "gpu" 128 8 true "int8" 10 false false
         "./log_output") = Ok p
    ∧ Predictor.enable_tensorrt_engine 8 30 Predictor.Int8
        ∈ Predictor.settings p.
Proof.
  eexists. split; [reflexivity|].
  apply (tensorrt_enabled_exactly (λ _, true) Predictor.plain_runtime
           (Predictor.mkInitArgs "./model" "gpu" 128 8 true "int8" 10 false
              false "./log_output") _ 8 30 Predictor.Int8 eq_refl).
  repeat split.
Defined.

(** X8. The device calls follow the device string and exclude one another:
    [enable_use_gpu(100, 0)] only for ["gpu"], [disable_gpu()] only for
    ["cpu"], [enable_xpu(100)] only for ["xpu"]. *)
Theorem device_calls_follow_device :
  ∀ (path_exists : string → bool) (rt : Predictor.Runtime)
    (a : Predictor.InitArgs)
    (p : Predictor.Predictor),
    Predictor.init path_exists rt a = Ok p →
    (∀ mb id, Predictor.enable_use_gpu mb id ∈ Predictor.settings p
              ↔ Predictor.device a = "gpu" ∧ mb = 100 ∧ id = 0)
    ∧ (Predictor.disable_gpu ∈ Predictor.settings p
       ↔ Predictor.device a = "cpu")
    ∧ (∀ w, Predictor.enable_xpu w ∈ Predictor.settings p
            ↔ Predictor.device a = "xpu" ∧ w = 100).
Proof.
  intros path_exists rt a p Hinit.
  destruct (init_settings_cases _ _ _ _ Hinit)
    as [(Hdev & m & Hm & Hs)|[(Hdev & Hs)|[(Hdev & Hs)|(Hg & Hc & Hx & Hs)]]];
    clear Hinit;
    (split; [intros mb id|split; [|intros w]]); settings_membership.
Qed.

Lemma device_calls_follow_device_witness :
  ∃ p,
    Predictor.init (λ _, true) Predictor.plain_runtime
      (Predictor.mkInitArgs "./model" "xpu" 128 8 true "int8" 10 true false
         "./log_output") = Ok p
    ∧ Predictor.enable_xpu 100 ∈ Predictor.settings p
    ∧ (Predictor.disable_gpu ∉ Predictor.settings p).
Proof.
  eexists. split; [reflexivity|].
  destruct (device_calls_follow_device (λ _, true) Predictor.plain_runtime
              (Predictor.mkInitArgs "./model" "xpu" 128 8 true "int8" 10 true
                 false "./log_output") _ eq_refl) as (_ & Hcpu & Hxpu).
  split.
  - apply Hxpu. split; reflexivity.
  - intros Hin. apply Hcpu in Hin. discriminate Hin.
Defined.

(** X9. The CPU options reach the configuration only for ["cpu"]: the thread
    count is passed on as given, whatever its value, and with
    [enable_mkldnn] the cache capacity is 10. *)
Theorem cpu_options_only_on_cpu :
  ∀ (path_exists : string → bool) (rt : Predictor.Runtime)
    (a : Predictor.InitArgs)
    (p : Predictor.Predictor),
    Predictor.init path_exists rt a = Ok p →
    (∀ n, Predictor.set_cpu_math_library_num_threads n
            ∈ Predictor.settings p
          ↔ Predictor.device a = "cpu" ∧ n = Predictor.cpu_threads a)
    ∧ (∀ c, Predictor.set_mkldnn_cache_capacity c ∈ Predictor.settings p
            ↔ Predictor.device a = "cpu"
              ∧ Predictor.enable_mkldnn a = true ∧ c = 10)
    ∧ (Predictor.enable_mkldnn_call ∈ Predictor.settings p
       ↔ Predictor.device a = "cpu" ∧ Predictor.enable_mkldnn a = true).
Proof.
  intros path_exists rt a p Hinit.
  destruct (init_settings_cases _ _ _ _ Hinit)
    as [(Hdev & m & Hm & Hs)|[(Hdev & Hs)|[(Hdev & Hs)|(Hg & Hc & Hx & Hs)]]];
    clear Hinit;
    (split; [intros n|split; [intros c|]]); settings_membership.
Qed.

Lemma cpu_options_only_on_cpu_witness :
  ∃ p,
    Predictor.init (λ _, true) Predictor.plain_runtime
      (Predictor.mkInitArgs "./model" "cpu" 128 8 false "fp32" (-3) false
         false "./log_output") = Ok p
    ∧ Predictor.set_cpu_math_library_num_threads (-3) ∈ Predictor.settings p
    ∧ (Predictor.enable_mkldnn_call ∉ Predictor.settings p).
Proof.
  eexists. split; [reflexivity|].
  destruct (cpu_options_only_on_cpu (λ _, true) Predictor.plain_runtime
              (Predictor.mkInitArgs "./model" "cpu" 128 8 false "fp32" (-3)
                 false false "./log_output") _ eq_refl)
    as (Hthreads & _ & Hmkl).
  split.
  - apply Hthreads. split; reflexivity.
  - intros Hin. apply Hmkl in Hin as [_ Hin]. discriminate Hin.
Defined.

Ltac not_a_member :=
  rewrite ?elem_of_cons, ?elem_of_nil;
  let Hin := fresh "Hin" in
  intros Hin; repeat (destruct Hin as [Hin|Hin]; [discriminate Hin|]);
  exact Hin.

(** X10. Every construction ends by switching the feed and fetch operators off,
    and does so once. *)
Theorem feed_fetch_switched_off_last :
  ∀ (path_exists : string → bool) (rt : Predictor.Runtime)
    (a : Predictor.InitArgs)
    (p : Predictor.Predictor),
    Predictor.init path_exists rt a = Ok p →
    ∃ device_calls,
      Predictor.settings p
      = device_calls ++ [Predictor.switch_use_feed_fetch_ops false]
      ∧ ∀ flag, Predictor.switch_use_feed_fetch_ops flag ∉ device_calls.
Proof.
  intros path_exists rt a p Hinit.
  destruct (init_settings_cases _ _ _ _ Hinit)
    as [(Hdev & m & Hm & Hs)|[(Hdev & Hs)|[(Hdev & Hs)|(Hg & Hc & Hx & Hs)]]];
    rewrite Hs.
  - exists (Predictor.enable_use_gpu 100 0
            :: (if Predictor.use_tensorrt a
                then [Predictor.enable_tensorrt_engine
                        (Predictor.batch_size a) 30 m]
                else [])).
    split; [reflexivity|]. intros flag.
    destruct (Predictor.use_tensorrt a); not_a_member.
  - exists (Predictor.disable_gpu
            :: (if Predictor.enable_mkldnn a
                then [Predictor.set_mkldnn_cache_capacity 10;
                      Predictor.enable_mkldnn_call]
                else [])
            ++ [Predictor.set_cpu_math_library_num_threads
                  (Predictor.cpu_threads a)]).
    split.
    + destruct (Predictor.enable_mkldnn a); reflexivity.
    + intros flag. destruct (Predictor.enable_mkldnn a); simpl;
        not_a_member.
  - exists [Predictor.enable_xpu 100]. split; [reflexivity|].
    intros flag. not_a_member.
  - exists []. split; [reflexivity|]. intros flag. apply not_elem_of_nil.
Qed.

Lemma feed_fetch_switched_off_last_witness :
  ∃ p device_calls,
    Predictor.init (λ _, true) Predictor.plain_runtime
      (Predictor.mkInitArgs "./model" "cpu" 128 8 false "fp32" 10 true
         false "./log_output") = Ok p
    ∧ Predictor.settings p
      = device_calls ++ [Predictor.switch_use_feed_fetch_ops false]
    ∧ ∀ flag, Predictor.switch_use_feed_fetch_ops flag ∉ device_calls.
Proof.
  eexists.
  destruct (feed_fetch_switched_off_last (λ _, true) Predictor.plain_runtime
              (Predictor.mkInitArgs "./model" "cpu" 128 8 false "fp32" 10
                 true false "./log_output") _ eq_refl)
    as (device_calls & Hsettings & Hnone).
  exists device_calls. split; [reflexivity|].
  split; [exact Hsettings|exact Hnone].
Defined.

(** X11. A device string other than ["gpu"], ["cpu"] and ["xpu"] is not
    rejected and selects nothing: a predictor built for it has made no
    device call (precision, TensorRT, thread and mkldnn options are
    dropped), and in a quiet runtime with the model files present it is
    built. *)
Theorem unknown_device_configures_nothing :
  ∀ (path_exists : string → bool) (rt : Predictor.Runtime)
    (a : Predictor.InitArgs),
    Predictor.device a ≠ "gpu" → Predictor.device a ≠ "cpu" →
    Predictor.device a ≠ "xpu" →
    (∀ p, Predictor.init path_exists rt a = Ok p →
          Predictor.settings p = [Predictor.switch_use_feed_fetch_ops false])
    ∧ (Predictor.quiet rt → Predictor.model_present path_exists a →
       ∃ p, Predictor.init path_exists rt a = Ok p).
Proof.
  intros path_exists rt a Hgpu Hcpu Hxpu. split.
  - intros p Hinit.
    destruct (init_settings_cases _ _ _ _ Hinit)
      as [(? & _)|[(? & _)|[(? & _)|(_ & _ & _ & Hs)]]];
      [contradiction..|exact Hs].
  - intros Hquiet Hfiles.
    destruct (Predictor.init path_exists rt a) as [p|e] eqn:Hinit;
      [exists p; reflexivity|].
    apply (init_quiet_Raise path_exists rt a e Hquiet Hfiles) in Hinit
      as (? & _).
    contradiction.
Qed.

Lemma unknown_device_configures_nothing_witness :
  ∃ p,
    Predictor.init (λ _, true) Predictor.plain_runtime
      (Predictor.mkInitArgs "./model" "GPU" 128 8 true "fp64" 0 true false
         "./log_output") = Ok p
    ∧ Predictor.settings p = [Predictor.switch_use_feed_fetch_ops false].
Proof.
  destruct (unknown_device_configures_nothing (λ _, true)
              Predictor.plain_runtime
              (Predictor.mkInitArgs "./model" "GPU" 128 8 true "fp64" 0 true
                 false "./log_output"))
    as [Hsettings Hbuilt]; [discriminate..|].
  destruct (Hbuilt plain_runtime_quiet (conj eq_refl eq_refl)) as [p Hp].
  exists p. split; [exact Hp|exact (Hsettings p Hp)].
Defined.

(** ** Classification decode *)

Section ArgmaxBounds.
Import Classify.
Context {score : Type} (le : score → score → bool).

Lemma argmax_scan_bound (ip : list score) (i : nat) (mp : score)
    (max_ind : nat) :
  (max_ind < i)%nat →
  (argmax_scan le i ip mp max_ind < i + length ip)%nat.
Proof.
  revert i mp max_ind.
  induction ip as [|x rest IH]; intros i mp max_ind Hlt; simpl; [lia|].
  destruct (le x mp).
  - specialize (IH (S i) mp max_ind). lia.
  - destruct (isnan le x); [lia|].
    specialize (IH (S i) x i). lia.
Qed.

Lemma argmax_row_bound (row : list score) (i : nat) :
  argmax_row le row = Some i → (i < length row)%nat.
Proof.
  destruct row as [|mp rest]; simpl; [discriminate|].
  intros [= <-]. destruct (isnan le mp); [lia|].
  pose proof (argmax_scan_bound rest 1 mp 0). lia.
Qed.
End ArgmaxBounds.

(** X12. Whatever the comparison does (NaN included), the index chosen for a row
    is a position of that row, and only an empty row has none. *)
Theorem argmax_index_in_row :
  ∀ (score : Type) (le : score → score → bool) (row : list score),
    (row = [] ∧ Classify.argmax_row le row = None)
    ∨ (∃ i x, Classify.argmax_row le row = Some i ∧ row !! i = Some x).
Proof.
  intros score le row. destruct row as [|mp rest] eqn:Hrow.
  - left. split; reflexivity.
  - right. rewrite <- Hrow.
    destruct (argmax_row_nonempty le row) as [i Hi]; [congruence|].
    destruct (lookup_lt_is_Some_2 row i (argmax_row_bound le row i Hi))
      as [x Hx].
    exists i, x. split; assumption.
Qed.

Lemma decode_Raise_inv {score : Type} (le : score → score → bool)
    (probs : Classify.ndarray2) (label_map : gmap Z string) (e : exn) :
  Classify.rectangular probs → (0 < Classify.ncols probs)%nat →
  Classify.decode le probs label_map = Raise e →
  ∃ i : nat,
    (i < Classify.ncols probs)%nat
    ∧ label_map !! Z.of_nat i = None
    ∧ e = KeyError (IntKey (Z.of_nat i)).
Proof.
  intros Hrect Hpos Hraise.
  destruct (np_argmax_axis1_rectangular le probs Hrect Hpos) as [idx Hidx].
  rewrite (decode_unfold le probs label_map idx Hidx) in Hraise.
  apply np_argmax_axis1_Ok in Hidx as [_ Hall].
  assert (Forall (λ i, (i < Classify.ncols probs)%nat) idx) as Hbound.
  { unfold Classify.rectangular in Hrect.
    clear Hraise. induction Hall as [|r i rs idx Hi _ IH]; [constructor|].
    inversion Hrect as [|? ? Hr Hrs]; subst. constructor; [|apply IH, Hrs].
    rewrite <- Hr. apply (argmax_row_bound le), Hi. }
  clear Hall. induction Hbound as [|i idx Hi _ IH]; [discriminate|].
  rewrite fmap_cons, comprehension_cons in Hraise.
  unfold Classify.getitem at 1 in Hraise.
  destruct (label_map !! Z.of_nat i) as [label|] eqn:Hlabel.
  - destruct (comprehension _ _) as [labels|e'] eqn:Hrest; [discriminate|].
    injection Hraise as ->. apply IH. reflexivity.
  - injection Hraise as <-. exists i. repeat split; assumption.
Qed.

(** X14. On a rectangular score matrix with at least one class the decode step
    raises nothing but [KeyError], and only for a class index below the
    number of classes that [label_map] lacks. *)
Theorem decode_raises_only_missing_class :
  ∀ (score : Type) (le : score → score → bool)
    (probs : Classify.ndarray2) (label_map : gmap Z string) (e : exn),
    Classify.rectangular probs → (0 < Classify.ncols probs)%nat →
    Classify.decode le probs label_map = Raise e →
    ∃ i : nat,
      (i < Classify.ncols probs)%nat
      ∧ label_map !! Z.of_nat i = None
      ∧ e = KeyError (IntKey (Z.of_nat i)).
Proof.
  intros score le probs label_map e. apply decode_Raise_inv.
Qed.

Lemma decode_raises_only_missing_class_witness :
  ∃ i : nat,
    (i < 3)%nat
    ∧ Script.label_map !! Z.of_nat i = None
    ∧ KeyError (IntKey 2) = KeyError (IntKey (Z.of_nat i)).
Proof.
  apply (decode_raises_only_missing_class Q Qle_bool
           (Classify.mkArray 3 [[0.5; 0.1; 0.2]; [0.2; 0.1; 0.7]]%Q)
           Script.label_map (KeyError (IntKey 2))).
  - repeat constructor.
  - simpl. lia.
  - reflexivity.
Defined.

(** X15. If [label_map] has an entry for every class index the matrix can give,
    the decode step cannot fail: it returns one label per row. With two
    classes the script's own [label_map] is such a map. *)
Theorem decode_total_on_covering_label_map :
  ∀ (score : Type) (le : score → score → bool)
    (probs : Classify.ndarray2) (label_map : gmap Z string),
    Classify.rectangular probs → (0 < Classify.ncols probs)%nat →
    (∀ i, (i < Classify.ncols probs)%nat →
          is_Some (label_map !! Z.of_nat i)) →
    ∃ labels,
      Classify.decode le probs label_map = Ok labels
      ∧ length labels = length (Classify.rows probs)
      ∧ ∀ label, label ∈ labels →
                 ∃ i, (i < Classify.ncols probs)%nat
                    ∧ label_map !! Z.of_nat i = Some label.
Proof.
  intros score le probs label_map Hrect Hpos Hcover.
  destruct (Classify.decode le probs label_map) as [labels|e] eqn:Hdecode.
  - exists labels. split; [reflexivity|].
    apply decode_Ok in Hdecode as [_ Hall].
    split; [symmetry; eapply Forall2_length, Hall|].
    intros label Hin. apply list_elem_of_lookup in Hin as [k Hk].
    destruct (Forall2_lookup_r _ _ _ _ _ Hall Hk)
      as (r & Hr & i & Hi & Hlabel).
    exists i. split; [|exact Hlabel].
    unfold Classify.rectangular in Hrect. rewrite Forall_forall in Hrect.
    rewrite <- (Hrect r (list_elem_of_lookup_2 _ _ _ Hr)).
    apply (argmax_row_bound le), Hi.
  - destruct (decode_Raise_inv le probs label_map e
                Hrect Hpos Hdecode) as (i & Hi & Hnone & _).
    destruct (Hcover i Hi) as [label Hlabel]. congruence.
Qed.

Lemma decode_total_on_covering_label_map_witness :
  ∃ labels,
    Classify.decode Qle_bool
      (Classify.mkArray 2 [[0.3; 0.7]; [0.5; 0.5]; [0.9; 0.1]]%Q)
      Script.label_map = Ok labels
    ∧ length labels = 3%nat
    ∧ ∀ label, label ∈ labels →
               ∃ i, (i < 2)%nat
                  ∧ Script.label_map !! Z.of_nat i = Some label.
Proof.
  apply (decode_total_on_covering_label_map Q Qle_bool
           (Classify.mkArray 2 [[0.3; 0.7]; [0.5; 0.5]; [0.9; 0.1]]%Q)
           Script.label_map).
  - repeat constructor.
  - simpl. lia.
  - intros [|[|i]] Hi; simpl in Hi; [eexists; reflexivity ..|lia].
Defined.

Section OrderPreserving.
Import Classify.
Context {score score' : Type}.
Variable le : score → score → bool.
Variable le' : score' → score' → bool.


End OrderPreserving.



(** X17. [predict] hands the decoded labels back only when the module-level name
    [args] is bound and, if [args.benchmark] is set, the predictor was built
    with a timer. Called from an importing module ([args] unbound) it raises
    [NameError] after decoding; with [args.benchmark] set on a predictor
    built without [benchmark] it raises [AttributeError]. *)
Theorem predict_returns_labels_iff :
  ∀ (score : Type) (le : score → score → bool)
    (args_benchmark : option bool) (self : Predictor.Predictor)
    (probs : Classify.ndarray2) (label_map : gmap Z string)
    (labels : list string),
    (Classify.predict_tail le args_benchmark self probs label_map = Ok labels
     ↔ Classify.decode le probs label_map = Ok labels
       ∧ (args_benchmark = Some false
          ∨ (args_benchmark = Some true
             ∧ is_Some (Predictor.self_autolog self))))
    ∧ (Classify.decode le probs label_map = Ok labels →
       Classify.predict_tail le None self probs label_map
       = Raise (NameError "args"))
    ∧ (Classify.decode le probs label_map = Ok labels →
       Predictor.self_autolog self = None →
       Classify.predict_tail le (Some true) self probs label_map
       = Raise (AttributeError "autolog")).
Proof.
  intros score le args_benchmark self probs label_map labels.
  unfold Classify.predict_tail.
  destruct (Classify.decode le probs label_map) as [labels'|e]; simpl.
  - split; [|split].
    + destruct args_benchmark as [[|]|];
        [destruct (Predictor.self_autolog self) as [autolog|]|..]; simpl;
        split;
        try discriminate;
        try (intros [= <-]; split; [reflexivity|eauto]);
        intros [[= <-] [H|[H H']]]; try discriminate; try reflexivity.
      destruct H' as [? H']. discriminate H'.
    + reflexivity.
    + intros _ ->. reflexivity.
  - split; [|split]; try discriminate.
    split; [discriminate|]. intros [H _]. discriminate H.
Qed.

Lemma predict_returns_labels_iff_witness :
  Classify.predict_tail Qle_bool None
    (Predictor.mkPredictor 128 32 false
       (Predictor.mkConfig "m" "p" [])
       (Predictor.mkEngine ["input_ids"; "token_type_ids"] ["logits"]
          (λ _, None))
       ["input_ids"; "token_type_ids"] "logits" None)
    (Classify.mkArray 2 [[0.3; 0.7]]%Q) Script.label_map
  = Raise (NameError "args").
Proof.
  apply (predict_returns_labels_iff Q Qle_bool None
           (Predictor.mkPredictor 128 32 false
              (Predictor.mkConfig "m" "p" [])
              (Predictor.mkEngine ["input_ids"; "token_type_ids"] ["logits"]
                 (λ _, None))
              ["input_ids"; "token_type_ids"] "logits" None)
           (Classify.mkArray 2 [[0.3; 0.7]]%Q) Script.label_map ["similar"]).
  reflexivity.
Defined.

(** X18. A predictor built by [__init__] and used by the script with the same
    [benchmark] flag returns from [predict] exactly what the decode step
    gives: the timer attribute is there whenever the flag asks for it. *)
Theorem script_predict_is_decode :
  ∀ (score : Type) (le : score → score → bool)
    (path_exists : string → bool) (rt : Predictor.Runtime)
    (a : Predictor.InitArgs)
    (p : Predictor.Predictor) (probs : Classify.ndarray2)
    (label_map : gmap Z string),
    Predictor.init path_exists rt a = Ok p →
    Classify.predict_tail le (Some (Predictor.benchmark a)) p probs label_map
    = Classify.decode le probs label_map.
Proof.
  intros score le path_exists rt a p probs label_map Hinit.
  apply predict_tail_as_script. intros Hbench.
  apply init_Ok_inv in Hinit as (_ & c & _ & Hbuild).
  apply build_Ok in Hbuild as [_ Hlog].
  rewrite Hlog, Hbench. eexists. reflexivity.
Qed.

Lemma script_predict_is_decode_witness :
  ∃ p,
    Predictor.init (λ _, true) Predictor.plain_runtime
      (Predictor.mkInitArgs "./model" "cpu" 128 32 false "fp32" 10 false true
         "./log_output") = Ok p
    ∧ Classify.predict_tail Qle_bool (Some true) p
        (Classify.mkArray 2 [[0.3; 0.7]]%Q) Script.label_map
      = Classify.decode Qle_bool
          (Classify.mkArray 2 [[0.3; 0.7]]%Q) Script.label_map.
Proof.
  eexists. split; [reflexivity|].
  apply (script_predict_is_decode Q Qle_bool (λ _, true)
           Predictor.plain_runtime
           (Predictor.mkInitArgs "./model" "cpu" 128 32 false "fp32" 10 false
              true "./log_output")).
  reflexivity.
Defined.

(** ** The script body *)

Section Slicing.
Context {A : Type}.

Lemma clamp_index_nonneg (l : list A) (i : Z) :
  0 ≤ i → clamp_index l i = Nat.min (Z.to_nat i) (length l).
Proof.
  intros Hi. unfold clamp_index, len.
  destruct (Z.ltb_spec i 0); lia.
Qed.

Lemma take_min_length (l : list A) (n : nat) :
  take (Nat.min n (length l)) l = take n l.
Proof.
  destruct (Nat.le_ge_cases n (length l)) as [Hle|Hge].
  - rewrite Nat.min_l by exact Hle. reflexivity.
  - rewrite Nat.min_r by exact Hge. rewrite firstn_all.
    symmetry. apply take_ge, Hge.
Qed.

Lemma slice_nonneg (l : list A) (start stop : Z) :
  0 ≤ start → 0 ≤ stop →
  slice l start stop = drop (Z.to_nat start) (take (Z.to_nat stop) l).
Proof.
  intros Hstart Hstop. unfold slice.
  rewrite !clamp_index_nonneg by assumption.
  rewrite take_min_length.
  destruct (Nat.le_ge_cases (Z.to_nat start) (length l)) as [Hle|Hge].
  - rewrite Nat.min_l by exact Hle. reflexivity.
  - rewrite Nat.min_r by exact Hge.
    rewrite !drop_ge; [reflexivity|..]; rewrite length_take; lia.
Qed.

(** The [k]-th stretch of [b] elements. *)
Lemma chunks_concat (data : list A) (b n : nat) :
  concat ((λ k, drop (k * b) (take (k * b + b) data)) <$> seq 0 n)
  = take (n * b) data.
Proof.
  induction n as [|n IH]; [reflexivity|].
  rewrite seq_S, fmap_app, concat_app, IH.
  change (concat ((λ k, drop (k * b) (take (k * b + b) data)) <$> [(0 + n)%nat]))
    with (drop (n * b) (take (n * b + b) data) ++ []).
  rewrite app_nil_r, <- take_drop_commute, take_take_drop.
  f_equal. lia.
Qed.

Lemma py_range_from_zero (stop step : Z) :
  0 < step →
  py_range 0 stop step
  = Ok ((λ k, Z.of_nat k * step)
          <$> seq 0 (Z.to_nat (if 0 <? stop then (stop - 1) / step + 1
                               else 0))).
Proof.
  intros Hstep. unfold py_range.
  destruct (Z.eqb_spec step 0); [lia|].
  destruct (Z.ltb_spec 0 step); [|lia].
  rewrite Z.sub_0_r. reflexivity.
Qed.
End Slicing.

Section Batches.
Context {text : Type}.

(** With a positive batch size the batches are the stretches of
    [Z.to_nat batch_size] elements, as many as it takes. *)
Lemma make_batches_positive (data : list text) (batch_size : Z) :
  0 < batch_size →
  Script.make_batches data batch_size
  = Ok ((λ k, drop (k * Z.to_nat batch_size)
                (take (k * Z.to_nat batch_size + Z.to_nat batch_size) data))
          <$> seq 0 (Z.to_nat (if 0 <? len data
                               then (len data - 1) / batch_size + 1
                               else 0))).
Proof.
  intros Hpos. unfold Script.make_batches.
  rewrite py_range_from_zero by exact Hpos. simpl.
  f_equal. rewrite <- list_fmap_compose. apply list_fmap_ext.
  intros i k _. simpl.
  rewrite slice_nonneg by nia. f_equal; [|f_equal]; nia.
Qed.

Lemma batch_count_covers (data : list text) (batch_size : Z) :
  0 < batch_size →
  let n := Z.to_nat (if 0 <? len data then (len data - 1) / batch_size + 1
                     else 0) in
  (length data ≤ n * Z.to_nat batch_size)%nat
  ∧ ((length data = 0 ∧ n = 0)%nat
     ∨ ∃ m, n = S m ∧ (m * Z.to_nat batch_size < length data)%nat)
  ∧ Z.of_nat n = (len data + batch_size - 1) / batch_size.
Proof.
  intros Hpos n. subst n. unfold len.
  destruct (Z.ltb_spec 0 (Z.of_nat (length data))) as [Hlen|Hlen].
  - pose proof (Z.div_mod (Z.of_nat (length data) - 1) batch_size) as Hdm.
    pose proof (Z.mod_pos_bound (Z.of_nat (length data) - 1) batch_size Hpos)
      as Hmod.
    pose proof (Z.div_pos (Z.of_nat (length data) - 1) batch_size) as Hq.
    replace (Z.of_nat (length data) + batch_size - 1)
      with (Z.of_nat (length data) - 1 + 1 * batch_size) by lia.
    rewrite Z.div_add by lia.
    split; [nia|]. split; [|lia].
    right.
    exists (Z.to_nat ((Z.of_nat (length data) - 1) / batch_size)).
    split; [lia|nia].
  - assert (length data = 0)%nat as -> by lia. simpl.
    split; [lia|]. split; [left; split; reflexivity|].
    rewrite Z.div_small; lia.
Qed.
End Batches.

Lemma make_batches_partition {text : Type} (data : list text)
    (batch_size : Z) :
  0 < batch_size →
  ∃ batches,
    Script.make_batches data batch_size = Ok batches
    ∧ concat batches = data
    ∧ len batches = (len data + batch_size - 1) / batch_size
    ∧ ∀ i batch_data,
        batches !! i = Some batch_data →
        batch_data ≠ []
        ∧ len batch_data ≤ batch_size
        ∧ ((S i < length batches)%nat → len batch_data = batch_size).
Proof.
  intros Hpos.
  rewrite make_batches_positive by exact Hpos.
  destruct (batch_count_covers data batch_size Hpos)
    as (Hcover & Hlast & Hcount).
  set (n := Z.to_nat _) in *. set (b := Z.to_nat batch_size) in *.
  eexists. split; [reflexivity|].
  split; [rewrite chunks_concat; apply take_ge, Hcover|].
  split; [unfold len; rewrite length_fmap, length_seq; exact Hcount|].
  intros i batch_data Hi.
  rewrite length_fmap, length_seq.
  apply list_lookup_fmap_Some in Hi as (k & -> & Hk).
  apply lookup_seq in Hk as [-> Hk]. simpl.
  assert (length (drop (i * b) (take (i * b + b) data))
          = Nat.min (i * b + b) (length data) - i * b)%nat as Hlen
    by (rewrite length_drop, length_take; reflexivity).
  assert (Z.of_nat b = batch_size) as Hb by (subst b; lia).
  destruct Hlast as [[_ Hn]|(m & Hn & Hm)]; rewrite Hn in *; [lia|].
  split; [|split].
  - intros Hnil. rewrite Hnil in Hlen. simpl in Hlen.
    pose proof (Nat.mul_le_mono_r i m b). lia.
  - unfold len. rewrite Hlen. lia.
  - intros Hnext. unfold len. rewrite Hlen.
    pose proof (Nat.mul_le_mono_r (S i) m b). simpl in *. lia.
Qed.

(** X19. With a positive batch size the batches cut the data into consecutive
    stretches: put end to end they are the data, there are
    [ceil(len / batch_size)] of them, none is empty, none is longer than
    the batch size, and all but the last have exactly that size. *)
Theorem batches_partition_data :
  ∀ (text : Type) (data : list text) (batch_size : Z),
    0 < batch_size →
    ∃ batches,
      Script.make_batches data batch_size = Ok batches
      ∧ concat batches = data
      ∧ len batches = (len data + batch_size - 1) / batch_size
      ∧ ∀ i batch_data,
          batches !! i = Some batch_data →
          batch_data ≠ []
          ∧ len batch_data ≤ batch_size
          ∧ ((S i < length batches)%nat → len batch_data = batch_size).
Proof. intros text data batch_size. apply make_batches_partition. Qed.

Lemma batches_partition_data_witness :
  ∃ batches,
    Script.make_batches [1; 2; 3; 4; 5; 6; 7] 3 = Ok batches
    ∧ concat batches = [1; 2; 3; 4; 5; 6; 7]
    ∧ len batches = (len [1; 2; 3; 4; 5; 6; 7] + 3 - 1) / 3
    ∧ ∀ i batch_data,
        batches !! i = Some batch_data →
        batch_data ≠ []
        ∧ len batch_data ≤ 3
        ∧ ((S i < length batches)%nat → len batch_data = 3).
Proof.
  apply (batches_partition_data Z [1; 2; 3; 4; 5; 6; 7] 3). lia.
Defined.

Section ScriptRun.
Context {text : Type}.
Variable predict : list text → result (list string).

Lemma extend_results_Ok (batches : list (list text))
    (acc results : list string) :
  Script.extend_results predict batches acc = Ok results
  ↔ ∃ labelss, Forall2 (λ b labels, predict b = Ok labels) batches labelss
             ∧ results = acc ++ concat labelss.
Proof.
  revert acc. induction batches as [|b rest IH]; intros acc; simpl.
  - split.
    + intros [= <-]. exists []. split; [constructor|].
      simpl. rewrite app_nil_r. reflexivity.
    + intros (labelss & Hall & ->). inversion Hall. simpl.
      rewrite app_nil_r. reflexivity.
  - destruct (predict b) as [labels|e] eqn:Hb; simpl.
    + rewrite IH. split.
      * intros (labelss & Hall & ->). exists (labels :: labelss).
        split; [constructor; assumption|].
        simpl. rewrite app_assoc. reflexivity.
      * intros (labelss & Hall & ->).
        inversion Hall as [|? labels' ? rest' Hb' Hrest]; subst.
        rewrite Hb in Hb'. injection Hb' as <-.
        exists rest'. split; [exact Hrest|].
        simpl. rewrite app_assoc. reflexivity.
    + split; [discriminate|]. intros (labelss & Hall & _).
      inversion Hall; subst. congruence.
Qed.

Lemma extend_results_Raise (before after : list (list text))
    (b : list text) (acc : list string) (e : exn) :
  Forall (λ b', ∃ labels, predict b' = Ok labels) before →
  predict b = Raise e →
  Script.extend_results predict (before ++ b :: after) acc = Raise e.
Proof.
  intros Hbefore Hb. revert acc.
  induction Hbefore as [|b' before [labels Hb'] _ IH]; intros acc; simpl.
  - rewrite Hb. reflexivity.
  - rewrite Hb'. simpl. apply IH.
Qed.

(** The report loop prints a line per text for as long as [results] has an
    entry at the text's index. *)
Lemma report_spec (data : list text) (results : list string) (idx : nat)
    (done : list (text * string)) :
  Script.report idx data results done
  = Script.mkRun (done ++ zip data (drop idx results))
      (if decide (length data ≤ length results - idx)%nat then None
       else Some Script.IndexError).
Proof.
  revert idx done. induction data as [|t rest IH]; intros idx done;
    cbn [Script.report].
  - case_decide; [|simpl in *; lia]. simpl. rewrite app_nil_r. reflexivity.
  - destruct (results !! idx) as [label|] eqn:Hidx.
    + rewrite IH, (drop_S results label idx Hidx).
      apply lookup_lt_Some in Hidx.
      f_equal.
      * rewrite <- app_assoc. reflexivity.
      * repeat case_decide; simpl in *; try reflexivity; lia.
    + apply lookup_ge_None in Hidx.
      rewrite drop_ge by exact Hidx.
      case_decide; [simpl in *; lia|].
      simpl. rewrite app_nil_r. reflexivity.
Qed.
End ScriptRun.

Lemma predicted_lengths {text : Type}
    (predict : list text → result (list string))
    (batches : list (list text)) (labelss : list (list string)) :
  Forall2 (λ b labels, predict b = Ok labels ∧ length labels = length b)
    batches labelss →
  length (concat labelss) = length (concat batches).
Proof.
  induction 1 as [|b labels batches labelss [_ Hlen] _ IH]; [reflexivity|].
  simpl. rewrite !length_app, Hlen, IH. reflexivity.
Qed.

Lemma limit_steps_length {text : Type} (data : list text) (max_steps : Z) :
  length (Script.limit_steps data max_steps)
  = if 0 <? max_steps then Nat.min (Z.to_nat max_steps) (length data)
    else length data.
Proof.
  unfold Script.limit_steps, slice_to, len.
  destruct (Z.ltb_spec 0 max_steps); [|reflexivity].
  destruct (Z.ltb_spec max_steps 0); [lia|].
  rewrite length_take. lia.
Qed.

(** X20. If [predict] gives one label per text on every non-empty batch of at
    most [batch_size] texts, the script with a positive batch size raises
    nothing and prints one line per text it kept (all of them, or the first
    [max_steps] when that is positive), in order, each with the label
    [predict] gave at the text's place in its batch. *)
Theorem script_labels_every_text :
  ∀ (text : Type) (predict : list text → result (list string))
    (data : list text) (batch_size max_steps : Z),
    0 < batch_size →
    (∀ batch_data, batch_data ≠ [] → len batch_data ≤ batch_size →
       ∃ labels, predict batch_data = Ok labels
               ∧ length labels = length batch_data) →
    ∃ batches labelss,
      Script.make_batches (Script.limit_steps data max_steps) batch_size
      = Ok batches
      ∧ Forall2 (λ b labels, predict b = Ok labels) batches labelss
      ∧ length (concat labelss)
        = (if 0 <? max_steps
           then Nat.min (Z.to_nat max_steps) (length data)
           else length data)
      ∧ Script.main predict data batch_size max_steps
        = Script.mkRun
            (zip (Script.limit_steps data max_steps) (concat labelss)) None.
Proof.
  intros text predict data batch_size max_steps Hpos Hpredict.
  unfold Script.main. cbv zeta.
  destruct (make_batches_partition (Script.limit_steps data max_steps)
              batch_size Hpos) as (batches & -> & Hconcat & _ & Hshape).
  assert (∃ labelss,
            Forall2 (λ b labels, predict b = Ok labels
                                 ∧ length labels = length b)
              batches labelss) as [labelss Hall].
  { apply Forall_exists_Forall2_l, Forall_lookup. intros i b Hi.
    destruct (Hshape i b Hi) as (Hne & Hle & _).
    apply Hpredict; assumption. }
  pose proof (predicted_lengths predict batches labelss Hall) as Hlen.
  rewrite Hconcat in Hlen.
  assert (Forall2 (λ b labels, predict b = Ok labels) batches labelss)
    as Hok by (eapply Forall2_impl; [exact Hall|]; intros ? ? [? _]; done).
  exists batches, labelss. split; [reflexivity|]. split; [exact Hok|].
  split; [rewrite Hlen; apply limit_steps_length|].
  rewrite (proj2 (extend_results_Ok predict batches [] (concat labelss))
             (ex_intro _ labelss (conj Hok eq_refl))).
  rewrite report_spec. simpl. rewrite decide_True by lia. reflexivity.
Qed.

Lemma script_labels_every_text_witness :
  ∃ batches labelss,
    Script.make_batches (Script.limit_steps [10; 20; 30; 40; 50] 3) 2
    = Ok batches
    ∧ Forall2 (λ b labels, (λ b : list Z, Ok ((λ _, "similar") <$> b)) b
                           = Ok labels) batches labelss
    ∧ length (concat labelss) = 3%nat
    ∧ Script.main (λ b : list Z, Ok ((λ _, "similar") <$> b))
        [10; 20; 30; 40; 50] 2 3
      = Script.mkRun
          (zip (Script.limit_steps [10; 20; 30; 40; 50] 3) (concat labelss))
          None.
Proof.
  apply (script_labels_every_text Z
           (λ b : list Z, Ok ((λ _, "similar") <$> b))
           [10; 20; 30; 40; 50] 2 3).
  - lia.
  - intros batch_data _ _. eexists. split; [reflexivity|].
    apply length_fmap.
Defined.

(** X21. No line is printed before every batch is predicted: when [predict]
    raises on a batch after succeeding on the earlier ones, that exception
    ends the run with nothing printed. *)
Theorem script_prints_nothing_if_a_batch_fails :
  ∀ (text : Type) (predict : list text → result (list string))
    (data : list text) (batch_size max_steps : Z)
    (before after : list (list text)) (batch_data : list text) (e : exn),
    Script.make_batches (Script.limit_steps data max_steps) batch_size
    = Ok (before ++ batch_data :: after) →
    Forall (λ b, ∃ labels, predict b = Ok labels) before →
    predict batch_data = Raise e →
    Script.main predict data batch_size max_steps
    = Script.mkRun [] (Some (Script.Uncaught e)).
Proof.
  intros text predict data batch_size max_steps before after batch_data e
    Hbatches Hbefore Hraise.
  unfold Script.main. cbv zeta. rewrite Hbatches.
  rewrite (extend_results_Raise predict before after batch_data [] e
             Hbefore Hraise).
  reflexivity.
Qed.

Lemma script_prints_nothing_if_a_batch_fails_witness :
  Script.main
    (λ b : list Z, if decide (30 ∈ b) then Raise (KeyError (IntKey 2))
                   else Ok ((λ _, "similar") <$> b))
    [10; 20; 30; 40; 50] 2 (-1)
  = Script.mkRun [] (Some (Script.Uncaught (KeyError (IntKey 2)))).
Proof.
  apply (script_prints_nothing_if_a_batch_fails Z _ [10; 20; 30; 40; 50] 2
           (-1) [[10; 20]] [[50]] [30; 40] (KeyError (IntKey 2))).
  - reflexivity.
  - repeat constructor. eexists. reflexivity.
  - reflexivity.
Defined.

(** X22. A batch size that is not positive is not rejected up front: zero makes
    [range] raise [ValueError]; a negative one yields no batch at all, so
    [predict] is never called, and the report loop raises [IndexError] on
    the first text (a run without data ends quietly). *)
Theorem nonpositive_batch_size :
  ∀ (text : Type) (predict : list text → result (list string))
    (data : list text) (batch_size max_steps : Z),
    batch_size ≤ 0 →
    Script.main predict data batch_size max_steps
    = Script.mkRun []
        (if batch_size =? 0
         then Some (Script.Uncaught
                      (ValueError "range() arg 3 must not be zero"))
         else match Script.limit_steps data max_steps with
              | [] => None
              | _ :: _ => Some Script.IndexError
              end).
Proof.
  intros text predict data batch_size max_steps Hle.
  unfold Script.main, Script.make_batches, py_range. cbv zeta.
  destruct (Z.eqb_spec batch_size 0) as [->|Hne]; [reflexivity|].
  destruct (Z.ltb_spec 0 batch_size); [lia|].
  destruct (Z.ltb_spec (len (Script.limit_steps data max_steps)) 0);
    [unfold len in *; lia|].
  simpl. destruct (Script.limit_steps data max_steps); reflexivity.
Qed.

Lemma nonpositive_batch_size_witness :
  Script.main (λ b : list Z, Ok ((λ _, "similar") <$> b))
    [10; 20; 30] (-32) (-1)
  = Script.mkRun [] (Some Script.IndexError).
Proof.
  apply (nonpositive_batch_size Z
           (λ b : list Z, Ok ((λ _, "similar") <$> b)) [10; 20; 30] (-32)
           (-1)).
  lia.
Defined.

(** X23. The report loop pairs each text with the result at its index for as
    long as there is one: it prints [min(len(data), len(results))] lines,
    raises [IndexError] exactly when there are fewer results than texts,
    and ignores results beyond the last text. *)
Theorem report_pairs_texts_with_results :
  ∀ (text : Type) (data : list text) (results : list string),
    Script.printed (Script.report 0 data results []) = zip data results
    ∧ (Script.raised (Script.report 0 data results []) = None
       ↔ (length data ≤ length results)%nat)
    ∧ (Script.raised (Script.report 0 data results [])
       = Some Script.IndexError
       ↔ (length results < length data)%nat).
Proof.
  intros text data results. rewrite report_spec. simpl.
  rewrite Nat.sub_0_r.
  split; [reflexivity|].
  case_decide; split; split; intros; try discriminate; try reflexivity; lia.
Qed.

(** X3. Without an [eos_idx] in the sequence nothing is cut: the result is the
    conversion of the whole sequence without [bos_idx]. *)
Theorem missing_eos_keeps_whole_sequence :
  ∀ (tokenizer : list Z → string) (seq : list Z) (bos_idx eos_idx : Z),
    eos_idx ∉ seq →
    MBart.postprocess_response tokenizer seq bos_idx eos_idx
    = tokenizer (filter (λ idx, idx ≠ bos_idx) seq).
Proof.
  intros tokenizer seq bos_idx eos_idx Hnot.
  unfold MBart.postprocess_response, MBart.kept_ids, MBart.eos_position.
  cbv zeta. rewrite scan_eos_absent by exact Hnot.
  replace (len seq - 1 + 1) with (len seq) by lia.
  rewrite slice_to_len, filter_keep. f_equal.
  apply filter_ext_in. intros x Hx.
  split; [tauto|]. intros Hbos. split; [exact Hbos|]. congruence.
Qed.

Lemma missing_eos_keeps_whole_sequence_witness :
  MBart.postprocess_response
    (λ ids, if bool_decide (ids = [5; 9; 1; 1]) then "all four" else "?")
    [0; 5; 9; 1; 1] 0 2
  = "all four".
Proof.
  rewrite (missing_eos_keeps_whole_sequence _ [0; 5; 9; 1; 1] 0 2).
  - reflexivity.
  - intros Hin. repeat (apply elem_of_cons in Hin as [Hin|Hin];
                        [discriminate Hin|]).
    inversion Hin.
Defined.

(** X13. Under a total, transitive comparison the index the decode step takes
    for a row is the only stable argmax of that row: a position is chosen
    exactly when it holds a maximum strictly above everything before it. *)
Theorem argmax_row_is_the_stable_argmax :
  ∀ (score : Type) (le : score → score → bool) (row : list score) (i : nat),
    (∀ x y, le x y = true ∨ le y x = true) →
    (∀ x y z, le x y = true → le y z = true → le x z = true) →
    (Classify.argmax_row le row = Some i ↔ Classify.stable_argmax le row i).
Proof.
  intros score le row i Htotal Htrans. split.
  - apply argmax_row_stable; assumption.
  - apply stable_argmax_is_argmax_row; assumption.
Qed.

Lemma argmax_row_is_the_stable_argmax_witness :
  Classify.argmax_row Qle_bool [0.2; 0.9; 0.9]%Q = Some 1%nat
  ↔ Classify.stable_argmax Qle_bool [0.2; 0.9; 0.9]%Q 1.
Proof.
  apply (argmax_row_is_the_stable_argmax Q Qle_bool [0.2; 0.9; 0.9]%Q 1).
  - apply Qle_bool_total.
  - apply Qle_bool_trans.
Defined.
